(** * trpc-utils: [switchLink] and [endpointRouterLink]

    A shallow embedding of the two routing links of
    [packages/trpc-utils/src] ([switch-link.ts] and
    [endpoint-router-link.ts]) and the properties their specification
    states about them.  Line numbers are those of [src/switch-link.ts]
    and, for the endpoint router, of [src/index.ts].

    Conventions of the embedding.
    - A JavaScript object used as a record of string keys is the list of
      its own enumerable properties, in the order [Object.keys] lists
      them.  It is a plain object: a bracket read of a key it does not
      own finds the members of [Object.prototype].  A [Map] is the list
      of its entries in insertion order.
    - The links, the runtime, the chain executor [createChain] and the
      default transport [httpBatchLink] come from outside the two files;
      they are the fields of the class [Trpc].  Callbacks supplied by the
      user (the selector, the link factory, a link's initialization, the
      chain) may read and write state of their own, the [World]; they are
      assumed to return.
    - A routing link is a computation in a state monad.  The state holds
      the world, the [Map] the link instance owns, and a probe: the list
      of the calls the link has made to its collaborators, in call order
      (what the tests count with [vi.fn] and counters).
    - What a subscriber of the returned observable is sent is a list of
      notifications ([next], [error], [complete]) in delivery order. *)

From Stdlib Require Import String Ascii List Bool Arith Lia.
Import ListNotations.
Open Scope string_scope.

Set Implicit Arguments.

(** ** Strings *)

Module Str.

(** The double quote character, written by its code. *)
Definition dquote : string := String (ascii_of_nat 34) EmptyString.

(** [quoted s] is [s] between double quotes, as in a template literal
    ["${s}"] . *)
Definition quoted (s : string) : string := dquote ++ s ++ dquote.

(** [Array.prototype.join]. *)
Definition join (sep : string) (l : list string) : string :=
  String.concat sep l.

(** [String.prototype.split] with a one-character separator. *)
Fixpoint split (sep : ascii) (s : string) : list string :=
  match s with
  | EmptyString => [EmptyString]
  | String c rest =>
      if Ascii.eqb c sep then EmptyString :: split sep rest
      else match split sep rest with
           | [] => [String c EmptyString]
           | h :: t => String c h :: t
           end
  end.

(** [includes s sub]: [sub] occurs in [s] ([String.prototype.includes],
    the test matcher [toContain]). *)
Definition includes (s sub : string) : Prop :=
  exists before after, s = before ++ sub ++ after.

(** [c] occurs in [s]. *)
Fixpoint has_char (c : ascii) (s : string) : bool :=
  match s with
  | EmptyString => false
  | String d rest => Ascii.eqb d c || has_char c rest
  end.

(** A value used as a condition: the empty string is falsy. *)
Definition truthy (s : string) : bool :=
  match s with EmptyString => false | String _ _ => true end.

End Str.

(** ** Objects and Maps *)

Module JSObject.

(** The own enumerable properties, in [Object.keys] order. *)
Definition t (V : Type) : Type := list (string * V).

Definition keys {V} (o : t V) : list string := map fst o.

(** The own property [k]; [None] if the object does not own one. *)
Fixpoint get {V} (o : t V) (k : string) : option V :=
  match o with
  | [] => None
  | (k', v) :: rest => if String.eqb k k' then Some v else get rest k
  end.

(** An object has each key once. *)
Definition wf {V} (o : t V) : Prop := NoDup (keys o).

(** The property names of [Object.prototype] (Node.js and browsers).
    Each holds a function, and [__proto__] the prototype itself: twelve
    different objects, none of them nullish or falsy. *)
Definition prototype_members : list string :=
  ["constructor"; "__defineGetter__"; "__defineSetter__"; "hasOwnProperty";
   "__lookupGetter__"; "__lookupSetter__"; "isPrototypeOf";
   "propertyIsEnumerable"; "toString"; "valueOf"; "__proto__";
   "toLocaleString"].

Definition inherits (k : string) : bool :=
  existsb (String.eqb k) prototype_members.

(** What a bracket read [o[k]] of a plain object finds. *)
Inductive Read (V : Type) : Type :=
| Own (v : V)
| FromPrototype (member : string)
| Undefined.

Arguments Own {V} v.
Arguments FromPrototype {V} member.
Arguments Undefined {V}.

(** [o[k]]: the own property, else the member of [Object.prototype] of
    that name, else [undefined]. *)
Definition read {V} (o : t V) (k : string) : Read V :=
  match get o k with
  | Some v => Own v
  | None => if inherits k then FromPrototype k else Undefined
  end.

(** Writing the property [k]: an own key keeps its place. *)
Fixpoint set {V} (o : t V) (k : string) (v : V) : t V :=
  match o with
  | [] => [(k, v)]
  | (k', v') :: rest =>
      if String.eqb k k' then (k', v) :: rest else (k', v') :: set rest k v
  end.

(** [{ ...o, ...extra }]: the properties of [extra] written onto [o],
    in their order. *)
Definition spread {V} (o extra : t V) : t V :=
  fold_left (fun acc kv => set acc (fst kv) (snd kv)) extra o.

End JSObject.

Module JSMap.

(** The entries of a [Map] with string keys, in insertion order. *)
Definition t (V : Type) : Type := list (string * V).

(** [new Map()]. *)
Definition empty {V} : t V := [].

(** [m.get(k)]; [None] is [undefined]. *)
Fixpoint get {V} (m : t V) (k : string) : option V :=
  match m with
  | [] => None
  | (k', v) :: rest => if String.eqb k k' then Some v else get rest k
  end.

(** [m.set(k, v)]: an existing key keeps its place and takes the new
    value, a new key goes last. *)
Fixpoint set {V} (m : t V) (k : string) (v : V) : t V :=
  match m with
  | [] => [(k, v)]
  | (k', v') :: rest =>
      if String.eqb k k' then (k', v) :: rest else (k', v') :: set rest k v
  end.

(** [Array.from(m.keys())]. *)
Definition keys {V} (m : t V) : list string := map fst m.

Definition has {V} (m : t V) (k : string) : bool :=
  match get m k with Some _ => true | None => false end.

End JSMap.

(** [a ?? b] where [a] may be [undefined]. *)
Definition nullish {A} (a b : option A) : option A :=
  match a with Some x => Some x | None => b end.

(** ** Errors *)

(** [new Error(message)]. *)
Record JSError : Type := mkError { message : string }.

(** A [TRPCClientError]: its message and what it was made from. *)
Record TRPCClientError : Type :=
  { tmessage : string; cause : option JSError }.

(** [TRPCClientError.from(err)] keeps the message of the error it wraps. *)
Definition TRPCClientError_from (err : JSError) : TRPCClientError :=
  {| tmessage := message err; cause := Some err |}.

(** The outcome of a call that may [throw]. *)
Inductive Completion (A : Type) : Type :=
| Return (a : A)
| Throw (e : JSError).

Arguments Return {A} a.
Arguments Throw {A} e.

(** ** Operations, notifications and the collaborators *)

Inductive OperationType : Type := query | mutation | subscription.

(** An [Operation] (its abort signal is left out). *)
Record Operation (I C : Type) : Type :=
  { op_id : nat;
    op_type : OperationType;
    op_path : string;
    op_input : I;
    op_context : C }.

(** What an observer is sent. *)
Inductive Notification (V : Type) : Type :=
| Next (v : V)
| Error (e : TRPCClientError)
| Complete.

Arguments Next {V} v.
Arguments Error {V} e.
Arguments Complete {V}.

(** [LinkOrLinks]: a link or an array of links. *)
Inductive LinkOrLinks (L : Type) : Type :=
| Single (link : L)
| Many (links : list L).

Arguments Single {L} link.
Arguments Many {L} links.

(** A value that reaches the variable [endpoint] of the Endpoint Router:
    a string of the configuration, or the object a member of
    [Object.prototype] holds, known by the member's name. *)
Inductive Endpoint : Type :=
| Url (url : string)
| Inherited (member : string).

Definition Endpoint_eqb (a b : Endpoint) : bool :=
  match a, b with
  | Url x, Url y => String.eqb x y
  | Inherited x, Inherited y => String.eqb x y
  | _, _ => false
  end.

(** What the two files import and what the user supplies. *)
Class Trpc : Type :=
  { World : Type;
    Runtime : Type;
    TRPCLink : Type;
    OperationLink : Type;
    Input : Type;
    OpContext : Type;
    Value : Type;
    (** the values of the options of [httpBatchLink] *)
    OptionValue : Type;
    (** [link(runtime)] *)
    init_link : TRPCLink -> Runtime -> World -> OperationLink * World;
    (** [createChain({ op, links }).subscribe(observer)]: the
        notifications the observer is sent. *)
    createChain :
      Operation Input OpContext -> list OperationLink -> World ->
      list (Notification Value) * World;
    (** an endpoint as the value of an option *)
    option_of_endpoint : Endpoint -> OptionValue;
    (** [httpBatchLink(options)] *)
    httpBatchLink : JSObject.t OptionValue -> TRPCLink }.

(** ** The state monad of a link instance *)

Definition M (S A : Type) : Type := S -> A * S.

Definition ret {S A : Type} (a : A) : M S A := fun s => (a, s).

Definition bind {S A B : Type} (m : M S A) (k : A -> M S B) : M S B :=
  fun s => let (a, s') := m s in k a s'.

Notation "x <- m ;; k" := (bind m (fun x => k))
  (at level 61, m at next level, right associativity).
Notation "m ;; k" := (bind m (fun _ => k))
  (at level 61, right associativity).

(** [for (const x of l) body(x)] *)
Fixpoint for_each {S A : Type} (l : list A) (body : A -> M S unit) : M S unit :=
  match l with
  | [] => ret tt
  | x :: rest => body x ;; for_each rest body
  end.

(** [l.map(f)] for an [f] with effects: left to right. *)
Fixpoint map_each {S A B : Type} (f : A -> M S B) (l : list A) : M S (list B) :=
  match l with
  | [] => ret []
  | x :: rest => y <- f x ;; ys <- map_each f rest ;; ret (y :: ys)
  end.

Section Machine.
Context `{Trpc}.

Definition Op : Type := Operation Input OpContext.

(** The notifications sent to the observer of one call. *)
Definition Stream : Type := list (Notification Value).

(** A call a routing link makes to a collaborator. *)
Inductive Call : Type :=
| FactoryCall (endpoint : Endpoint)
| InitCall (link : TRPCLink)
| ChainCall (op : Op) (links : list OperationLink).

(** A link instance: the world, the [Map] of initialized chains it owns,
    and the probe.  [cache] holds the entries of the [Map] whose key is a
    string, in insertion order; [objects] holds the entries whose key is an
    object of [Object.prototype], under the name of the member. *)
Record State : Type :=
  { world : World;
    cache : JSMap.t (list OperationLink);
    calls : list Call;
    objects : JSMap.t (list OperationLink) }.

(** Run a callback of the user or of tRPC on the world. *)
Definition user {A} (f : World -> A * World) : M State A :=
  fun s =>
    let (a, w) := f (world s) in
    (a, {| world := w; cache := cache s; calls := calls s;
           objects := objects s |}).

Definition probe (c : Call) : M State unit :=
  fun s => (tt, {| world := world s; cache := cache s; calls := calls s ++ [c];
                   objects := objects s |}).

(** [new Map()] *)
Definition new_Map : M State unit :=
  fun s => (tt, {| world := world s; cache := JSMap.empty; calls := calls s;
                   objects := JSMap.empty |}).

Definition read_cache : M State (JSMap.t (list OperationLink)) :=
  fun s => (cache s, s).

Definition write_cache (m : JSMap.t (list OperationLink)) : M State unit :=
  fun s => (tt, {| world := world s; cache := m; calls := calls s;
                   objects := objects s |}).

(** The entry of the [Map] under the key [endpoint]. *)
Definition cached (s : State) (endpoint : Endpoint)
  : option (list OperationLink) :=
  match endpoint with
  | Url url => JSMap.get (cache s) url
  | Inherited member => JSMap.get (objects s) member
  end.

(** [map.get(endpoint)] *)
Definition Map_get (endpoint : Endpoint)
  : M State (option (list OperationLink)) :=
  fun s => (cached s endpoint, s).

(** [map.set(endpoint, links)] *)
Definition Map_set (endpoint : Endpoint) (links : list OperationLink)
  : M State unit :=
  fun s =>
    (tt,
     match endpoint with
     | Url url =>
         {| world := world s; cache := JSMap.set (cache s) url links;
            calls := calls s; objects := objects s |}
     | Inherited member =>
         {| world := world s; cache := cache s; calls := calls s;
            objects := JSMap.set (objects s) member links |}
     end).

(** [links.map((link) => link(runtime))] *)
Definition init_links (runtime : Runtime) (links : list TRPCLink)
  : M State (list OperationLink) :=
  map_each (fun link => probe (InitCall link) ;; user (init_link link runtime)) links.

(** [createChain({ op, links }).subscribe(observer)] *)
Definition subscribe_chain (op : Op) (links : list OperationLink) : M State Stream :=
  probe (ChainCall op links) ;; user (createChain op links).

(** A link once it holds the runtime: the handler of its operations. *)
Definition Handler : Type := Op -> M State Stream.

(** Serve the operations of [ops] one after the other. *)
Definition serve (handle : Handler) (ops : list Op) : M State (list Stream) :=
  map_each handle ops.

End Machine.

(** ** switch-link.ts *)

Module SwitchLink.
Section Source.
Context `{Trpc}.

Definition asArray (value : LinkOrLinks TRPCLink) : list TRPCLink :=
  match value with
  | Many links => links
  | Single link => [link]
  end.

Record SwitchLinkSelectorContext : Type :=
  { path : string;
    type : OperationType;
    ctx : OpContext;
    op : Op }.

Record SwitchLinkOptions : Type :=
  { select : SwitchLinkSelectorContext -> World -> string * World;
    cases : JSObject.t (LinkOrLinks TRPCLink) }.

(** The [Map] of the instance. *)
Definition initializedChains (s : State) : JSMap.t (list OperationLink) :=
  cache s.

(** Lines 56-65: the body run when the link is handed the runtime. *)
Definition initialize (opts : SwitchLinkOptions) (caseKeys : list string)
    (runtime : Runtime) : M State unit :=
  new_Map ;;
  for_each caseKeys (fun key =>
    match JSObject.get (cases opts) key with
    | None => ret tt  (* not reached: the keys are those of [cases] *)
    | Some linksOrLink =>
        let links := asArray linksOrLink in
        initializedLinks <- init_links runtime links ;;
        chains <- read_cache ;;
        write_cache (JSMap.set chains key initializedLinks)
    end).

(** The message of lines 86-87. *)
Definition unknown_key_message (selectedKey validKeys : string) : string :=
  "switchLink: selector returned unknown key " ++ Str.quoted selectedKey ++ ". "
  ++ "Valid keys are: " ++ validKeys.

(** Lines 67-97: what a subscriber of the observable of one operation
    is sent. *)
Definition handle (opts : SwitchLinkOptions) : Handler :=
  fun op =>
    let selectorContext :=
      {| path := op_path op; type := op_type op; ctx := op_context op; op := op |} in
    selectedKey <- user (select opts selectorContext) ;;
    chains <- read_cache ;;
    match JSMap.get chains selectedKey with
    | None =>
        let validKeys := Str.join ", " (JSMap.keys chains) in
        ret [Error (TRPCClientError_from
                      (mkError (unknown_key_message selectedKey validKeys)))]
    | Some links => subscribe_chain op links
    end.

Definition switchLink (opts : SwitchLinkOptions)
  : Completion (Runtime -> M State Handler) :=
  let caseKeys := JSObject.keys (cases opts) in
  if Nat.eqb (List.length caseKeys) 0 then
    Throw (mkError "switchLink: cases object must have at least one entry")
  else
    Return (fun runtime =>
              initialize opts caseKeys runtime ;; ret (handle opts)).

End Source.
End SwitchLink.

(** ** endpoint-router-link.ts *)

Module EndpointRouterLink.
Section Source.
Context `{Trpc}.

Definition asArray (value : LinkOrLinks TRPCLink) : list TRPCLink :=
  match value with
  | Many links => links
  | Single link => [link]
  end.

(** [LinkFactory]: [(endpoint) => LinkOrLinks], called with whatever
    value the router resolved. *)
Definition LinkFactory : Type :=
  Endpoint -> World -> LinkOrLinks TRPCLink * World.

Record EndpointRouterLinkOptions : Type :=
  { routerToEndpoint : JSObject.t string;
    defaultEndpoint : option string;
    strict : option bool;
    linkFactory : option LinkFactory;
    linkOptions : option (JSObject.t OptionValue) }.

(** The same fields; the two interfaces differ in the TypeScript type of
    [routerToEndpoint] only. *)
Record TypedEndpointRouterLinkOptions : Type :=
  { typed_routerToEndpoint : JSObject.t string;
    typed_defaultEndpoint : option string;
    typed_strict : option bool;
    typed_linkFactory : option LinkFactory;
    typed_linkOptions : option (JSObject.t OptionValue) }.

(** [opts as EndpointRouterLinkOptions<TRouter, Record<string, string>>] *)
Definition as_EndpointRouterLinkOptions (opts : TypedEndpointRouterLinkOptions)
  : EndpointRouterLinkOptions :=
  {| routerToEndpoint := typed_routerToEndpoint opts;
     defaultEndpoint := typed_defaultEndpoint opts;
     strict := typed_strict opts;
     linkFactory := typed_linkFactory opts;
     linkOptions := typed_linkOptions opts |}.

(** The entries of the [Map] of the instance under string keys. *)
Definition linkCache (s : State) : JSMap.t (list OperationLink) := cache s.

(** [strict = false] in the destructuring of [opts]. *)
Definition strict_flag (opts : EndpointRouterLinkOptions) : bool :=
  match strict opts with Some b => b | None => false end.

(** [linkOptions = {}] in the destructuring of [opts]. *)
Definition linkOptions_or_empty (opts : EndpointRouterLinkOptions)
  : JSObject.t OptionValue :=
  match linkOptions opts with Some o => o | None => [] end.

(** Lines 222-230: the factory given, or the default one, which calls
    [httpBatchLink({ url: endpoint, ...linkOptions })]. *)
Definition createLink (opts : EndpointRouterLinkOptions) : LinkFactory :=
  match linkFactory opts with
  | Some factory => factory
  | None =>
      fun endpoint w =>
        (Single (httpBatchLink
                   (JSObject.spread [("url", option_of_endpoint endpoint)]
                                    (linkOptions_or_empty opts))), w)
  end.

(** Lines 236-247. *)
Definition getInitializedLinks (opts : EndpointRouterLinkOptions)
    (runtime : Runtime) (endpoint : Endpoint) : M State (list OperationLink) :=
  found <- Map_get endpoint ;;
  match found with
  | Some initializedLinks => ret initializedLinks
  | None =>
      linksOrLink <- (probe (FactoryCall endpoint) ;; user (createLink opts endpoint)) ;;
      let links := asArray linksOrLink in
      initializedLinks <- init_links runtime links ;;
      Map_set endpoint initializedLinks ;;
      ret initializedLinks
  end.

(** [op.path.split('.')[0]]; [split] never returns the empty array. *)
Definition routerName (op : Op) : string :=
  match Str.split "." (op_path op) with
  | first :: _ => first
  | [] => EmptyString
  end.

(** [routerToEndpoint[name]] as a value: [None] is [undefined]. *)
Definition mapped (opts : EndpointRouterLinkOptions) (name : string)
  : option Endpoint :=
  match JSObject.read (routerToEndpoint opts) name with
  | JSObject.Own url => Some (Url url)
  | JSObject.FromPrototype member => Some (Inherited member)
  | JSObject.Undefined => None
  end.

(** Lines 253-255: [routerToEndpoint[routerName] ?? defaultEndpoint]. *)
Definition endpoint_of (opts : EndpointRouterLinkOptions) (op : Op)
  : option Endpoint :=
  nullish (mapped opts (routerName op))
          (option_map Url (defaultEndpoint opts)).

(** [!endpoint]: [undefined] and the empty string are falsy, an object
    is not. *)
Definition not_endpoint (endpoint : option Endpoint) : bool :=
  match endpoint with
  | None => true
  | Some (Url url) => negb (Str.truthy url)
  | Some (Inherited _) => false
  end.

(** Lines 258-264. *)
Definition errorMessage (opts : EndpointRouterLinkOptions) (name : string)
  : string :=
  let availableMappings := Str.join ", " (JSObject.keys (routerToEndpoint opts)) in
  if strict_flag opts then
    "endpointRouterLink: no endpoint mapping for router " ++ Str.quoted name ++ " "
    ++ "and no defaultEndpoint provided. "
    ++ "Available mappings: "
    ++ (if Str.truthy availableMappings then availableMappings else "(none)")
  else
    "endpointRouterLink: no endpoint for router " ++ Str.quoted name ++ ". "
    ++ "Either add it to routerToEndpoint or provide a defaultEndpoint.".

(** Lines 249-275: what a subscriber of the observable of one operation
    is sent. *)
Definition handle (opts : EndpointRouterLinkOptions) (runtime : Runtime)
  : Handler :=
  fun op =>
    let name := routerName op in
    let endpoint := endpoint_of opts op in
    if not_endpoint endpoint then
      ret [Error (TRPCClientError_from (mkError (errorMessage opts name)))]
    else
      match endpoint with
      | Some e =>
          links <- getInitializedLinks opts runtime e ;;
          subscribe_chain op links
      | None => ret []  (* not reached: [undefined] is falsy *)
      end.

Definition endpointRouterLink (opts : EndpointRouterLinkOptions)
  : Runtime -> M State Handler :=
  fun runtime =>
    new_Map ;; ret (handle opts runtime).

Definition typedEndpointRouterLink (opts : TypedEndpointRouterLinkOptions)
  : Runtime -> M State Handler :=
  endpointRouterLink (as_EndpointRouterLinkOptions opts).

End Source.
End EndpointRouterLink.

(** ** Running a link, and what the probe counts *)

Section Runs.
Context `{Trpc}.

(** Hand the link the runtime, then serve [ops]. *)
Definition run_link (link : Runtime -> M State Handler) (runtime : Runtime)
    (ops : list Op) : M State (list Stream) :=
  handler <- link runtime ;; serve handler ops.

(** A state no link has touched yet. *)
Definition fresh (w : World) : State :=
  {| world := w; cache := JSMap.empty; calls := []; objects := JSMap.empty |}.

(** Whether the [Map] has the key [endpoint]. *)
Definition is_cached (s : State) (endpoint : Endpoint) : bool :=
  match cached s endpoint with Some _ => true | None => false end.

(** How often the link factory was called with [endpoint]. *)
Fixpoint factory_calls (endpoint : Endpoint) (cs : list Call) : nat :=
  match cs with
  | [] => 0
  | FactoryCall e :: rest =>
      (if Endpoint_eqb e endpoint then 1 else 0) + factory_calls endpoint rest
  | _ :: rest => factory_calls endpoint rest
  end.

(** [1] for [true]. *)
Definition b2n (b : bool) : nat := if b then 1 else 0.

(** The links initialized, in call order. *)
Fixpoint init_calls (cs : list Call) : list TRPCLink :=
  match cs with
  | [] => []
  | InitCall l :: rest => l :: init_calls rest
  | _ :: rest => init_calls rest
  end.

(** The chains executed, in call order. *)
Fixpoint chain_calls (cs : list Call) : list (Op * list OperationLink) :=
  match cs with
  | [] => []
  | ChainCall op links :: rest => (op, links) :: chain_calls rest
  | _ :: rest => chain_calls rest
  end.

(** How many [complete] and [next] notifications a stream holds. *)
Definition completions (st : Stream) : nat :=
  List.length (filter (fun n => match n with Complete => true | _ => false end) st).

Definition values (st : Stream) : nat :=
  List.length (filter (fun n => match n with Next _ => true | _ => false end) st).

(** Initializing the links of a list in order, as a function of the
    world alone. *)
Fixpoint init_all (runtime : Runtime) (links : list TRPCLink) (w : World)
  : list OperationLink * World :=
  match links with
  | [] => ([], w)
  | link :: rest =>
      let (o, w1) := init_link link runtime w in
      let (os, w2) := init_all runtime rest w1 in
      (o :: os, w2)
  end.

End Runs.

Module SwitchSpec.
Section Spec.
Context `{Trpc}.

(** The specification's words for the initialization of a Switch Router:
    for every entry of the cases mapping, in order, normalize the value,
    initialize each link in order, and keep the list under the case key. *)
Fixpoint materialize (runtime : Runtime)
    (entries : JSObject.t (LinkOrLinks TRPCLink)) (w : World)
  : JSMap.t (list OperationLink) * World :=
  match entries with
  | [] => ([], w)
  | (key, value) :: rest =>
      let (chain, w1) := init_all runtime (SwitchLink.asArray value) w in
      let (m, w2) := materialize runtime rest w1 in
      ((key, chain) :: m, w2)
  end.

(** The cases with every value normalized. *)
Definition normalized (entries : JSObject.t (LinkOrLinks TRPCLink))
  : JSObject.t (list TRPCLink) :=
  map (fun e => (fst e, SwitchLink.asArray (snd e))) entries.

(** Every link of every case, in the order of the cases. *)
Definition all_links (entries : JSObject.t (LinkOrLinks TRPCLink))
  : list TRPCLink :=
  flat_map (fun e => SwitchLink.asArray (snd e)) entries.

(** What the selector answers for [op] in world [w] (lines 71-78), with
    the world it leaves. *)
Definition selected (opts : SwitchLink.SwitchLinkOptions) (op : Op) (w : World)
  : string * World :=
  SwitchLink.select opts
    {| SwitchLink.path := op_path op; SwitchLink.type := op_type op;
       SwitchLink.ctx := op_context op; SwitchLink.op := op |} w.

(** The state of a Switch Router instance that was handed [runtime] in
    state [s0] and has served [history] since. *)
Definition serving (opts : SwitchLink.SwitchLinkOptions) (runtime : Runtime)
    (history : list Op) (s0 : State) : State :=
  match SwitchLink.switchLink opts with
  | Return link => snd (run_link link runtime history s0)
  | Throw _ => s0
  end.

End Spec.
End SwitchSpec.

Module EndpointSpec.
Section Spec.
Context `{Trpc}.

(** The specification's words for the router name: the part of the path
    before its first [sep], the whole path if it has none. *)
Fixpoint before_first (sep : ascii) (s : string) : string :=
  match s with
  | EmptyString => EmptyString
  | String c rest =>
      if Ascii.eqb c sep then EmptyString else String c (before_first sep rest)
  end.




(** The state of an Endpoint Router instance that was handed [runtime]
    in state [s0] and has served [history] since. *)
Definition serving (opts : EndpointRouterLink.EndpointRouterLinkOptions)
    (runtime : Runtime) (history : list Op) (s0 : State) : State :=
  snd (run_link (EndpointRouterLink.endpointRouterLink opts) runtime history s0).

End Spec.
End EndpointSpec.

(** ** A concrete setting

    Links are named by strings.  The world counts the callbacks run so
    far, and an initialized link remembers the count at which it was
    initialized, so two initializations of one link differ.  A chain
    answers with the names of its links and completes. *)

Module Demo.

(** An endpoint as text. *)
Definition show (endpoint : Endpoint) : string :=
  match endpoint with
  | Url url => url
  | Inherited member => "Object.prototype." ++ member
  end.

Definition trpc : Trpc :=
  {| World := nat;
     Runtime := unit;
     TRPCLink := string;
     OperationLink := string * nat;
     Input := unit;
     OpContext := bool;
     Value := string;
     OptionValue := string;
     init_link := fun link _ w => ((link, w), S w);
     createChain := fun _ links w =>
       ([Next (Str.join "+" (map fst links)); Complete], S w);
     option_of_endpoint := show;
     httpBatchLink := fun options =>
       "httpBatchLink " ++ match JSObject.get options "url" with
                           | Some url => url
                           | None => EmptyString
                           end |}.

#[local] Existing Instance trpc.

Definition createMockOp (path : string) (isAdmin : bool) : Op :=
  {| op_id := 1; op_type := query; op_path := path;
     op_input := tt; op_context := isAdmin |}.

(** The selector answers a key that is no case. *)
Definition unknown_selector : SwitchLink.SwitchLinkOptions :=
  {| SwitchLink.select := fun _ w => ("unknown", S w);
     SwitchLink.cases := [("known", Single "knownLink")] |}.

(** Two cases, one a bare link and one an array of links. *)
Definition by_role : SwitchLink.SwitchLinkOptions :=
  {| SwitchLink.select := fun c w =>
       (if (SwitchLink.ctx c : bool) then "admin" else "user", S w);
     SwitchLink.cases :=
       [("admin", Single "adminLink"); ("user", Many ["loggerLink"; "userLink"])] |}.

(** The same cases with the bare link written as an array of one. *)
Definition by_role_arrays : SwitchLink.SwitchLinkOptions :=
  {| SwitchLink.select := SwitchLink.select by_role;
     SwitchLink.cases :=
       [("admin", Many ["adminLink"]); ("user", Many ["loggerLink"; "userLink"])] |}.

Definition no_cases : SwitchLink.SwitchLinkOptions :=
  {| SwitchLink.select := fun _ w => (EmptyString, w);
     SwitchLink.cases := [] |}.

Definition mockFactory : EndpointRouterLink.LinkFactory :=
  fun endpoint w => (Single ("link to " ++ show endpoint), S w).

(** Two router names on one endpoint. *)
Definition shared : EndpointRouterLink.EndpointRouterLinkOptions :=
  {| EndpointRouterLink.routerToEndpoint :=
       [("users", "/api/shared"); ("billing", "/api/shared"); ("admin", "/api/admin")];
     EndpointRouterLink.defaultEndpoint := None;
     EndpointRouterLink.strict := None;
     EndpointRouterLink.linkFactory := Some mockFactory;
     EndpointRouterLink.linkOptions := None |}.

Definition users_only (strict : option bool) (default : option string)
  : EndpointRouterLink.EndpointRouterLinkOptions :=
  {| EndpointRouterLink.routerToEndpoint := [("users", "/api/users")];
     EndpointRouterLink.defaultEndpoint := default;
     EndpointRouterLink.strict := strict;
     EndpointRouterLink.linkFactory := Some mockFactory;
     EndpointRouterLink.linkOptions := None |}.

(** The factory that answers an array of one link. *)
Definition mockFactory_array : EndpointRouterLink.LinkFactory :=
  fun endpoint w => (Many ["link to " ++ show endpoint], S w).

Definition users_only_array (strict : option bool) (default : option string)
  : EndpointRouterLink.EndpointRouterLinkOptions :=
  {| EndpointRouterLink.routerToEndpoint := [("users", "/api/users")];
     EndpointRouterLink.defaultEndpoint := default;
     EndpointRouterLink.strict := strict;
     EndpointRouterLink.linkFactory := Some mockFactory_array;
     EndpointRouterLink.linkOptions := None |}.


Definition typed_users : EndpointRouterLink.TypedEndpointRouterLinkOptions :=
  {| EndpointRouterLink.typed_routerToEndpoint := [("users", "/api/users")];
     EndpointRouterLink.typed_defaultEndpoint := Some "/api/default";
     EndpointRouterLink.typed_strict := None;
     EndpointRouterLink.typed_linkFactory := Some mockFactory;
     EndpointRouterLink.typed_linkOptions := None |}.

End Demo.

(** ** The rest of the two files

    The type [RouterNames] of [types.ts], the configurations that differ
    in one field, and what the probe holds in total. *)

Module Types.

(** Matching a key against the template [`${infer First}.${string}`]:
    [Some First], the text before the first '.', when the key has one. *)
Fixpoint infer_First (K : string) : option string :=
  match K with
  | EmptyString => None
  | String c rest =>
      if Ascii.eqb c "." then Some EmptyString
      else option_map (String c) (infer_First rest)
  end.

(** [K extends `${infer First}.${string}` ? First : K] (lines 41-43 of
    [types.ts]) for one procedure path [K]. *)
Definition RouterName (K : string) : string :=
  match infer_First K with
  | Some First => First
  | None => K
  end.

(** [RouterNames<TRouter>]: the conditional type distributes over the
    union [keyof TRouter['_def']['procedures']]. *)
Definition RouterNames (procedures : list string) : list string :=
  map RouterName procedures.

End Types.

Section Variants.
Context `{Trpc}.

(** [{ ...opts, strict }] *)
Definition with_strict (opts : EndpointRouterLink.EndpointRouterLinkOptions)
    (strict : option bool) : EndpointRouterLink.EndpointRouterLinkOptions :=
  {| EndpointRouterLink.routerToEndpoint := EndpointRouterLink.routerToEndpoint opts;
     EndpointRouterLink.defaultEndpoint := EndpointRouterLink.defaultEndpoint opts;
     EndpointRouterLink.strict := strict;
     EndpointRouterLink.linkFactory := EndpointRouterLink.linkFactory opts;
     EndpointRouterLink.linkOptions := EndpointRouterLink.linkOptions opts |}.

(** [{ ...opts, linkOptions }] *)
Definition with_linkOptions (opts : EndpointRouterLink.EndpointRouterLinkOptions)
    (linkOptions : option (JSObject.t OptionValue))
  : EndpointRouterLink.EndpointRouterLinkOptions :=
  {| EndpointRouterLink.routerToEndpoint := EndpointRouterLink.routerToEndpoint opts;
     EndpointRouterLink.defaultEndpoint := EndpointRouterLink.defaultEndpoint opts;
     EndpointRouterLink.strict := EndpointRouterLink.strict opts;
     EndpointRouterLink.linkFactory := EndpointRouterLink.linkFactory opts;
     EndpointRouterLink.linkOptions := linkOptions |}.

(** [{ ...opts, defaultEndpoint }] *)
Definition with_defaultEndpoint (opts : EndpointRouterLink.EndpointRouterLinkOptions)
    (defaultEndpoint : option string) : EndpointRouterLink.EndpointRouterLinkOptions :=
  {| EndpointRouterLink.routerToEndpoint := EndpointRouterLink.routerToEndpoint opts;
     EndpointRouterLink.defaultEndpoint := defaultEndpoint;
     EndpointRouterLink.strict := EndpointRouterLink.strict opts;
     EndpointRouterLink.linkFactory := EndpointRouterLink.linkFactory opts;
     EndpointRouterLink.linkOptions := EndpointRouterLink.linkOptions opts |}.

(** How many initialized links a [Map] of chains holds. *)
Definition cached_links (m : JSMap.t (list OperationLink)) : nat :=
  List.length (concat (map snd m)).

(** How often the link factory was called, whatever the endpoint. *)
Fixpoint all_factory_calls (cs : list Call) : nat :=
  match cs with
  | [] => 0
  | FactoryCall _ :: rest => S (all_factory_calls rest)
  | _ :: rest => all_factory_calls rest
  end.

End Variants.

Module DemoMore.

#[local] Existing Instance Demo.trpc.

(** A case that is the empty array, beside a usual one. *)
Definition with_empty_case : SwitchLink.SwitchLinkOptions :=
  {| SwitchLink.select := fun c w =>
       (if (SwitchLink.ctx c : bool) then "none" else "user", S w);
     SwitchLink.cases := [("none", Many []); ("user", Single "userLink")] |}.

(** No custom factory: the default transport, with options. *)
Definition default_transport : EndpointRouterLink.EndpointRouterLinkOptions :=
  {| EndpointRouterLink.routerToEndpoint := [("users", "/api/users")];
     EndpointRouterLink.defaultEndpoint := Some "/api/trpc";
     EndpointRouterLink.strict := None;
     EndpointRouterLink.linkFactory := None;
     EndpointRouterLink.linkOptions := Some [("headers", "X-Custom")] |}.

(** No custom factory, and link options that hold a [url] of their
    own. *)
Definition url_in_options : EndpointRouterLink.EndpointRouterLinkOptions :=
  {| EndpointRouterLink.routerToEndpoint := [("users", "/api/users")];
     EndpointRouterLink.defaultEndpoint := None;
     EndpointRouterLink.strict := None;
     EndpointRouterLink.linkFactory := None;
     EndpointRouterLink.linkOptions :=
       Some [("headers", "X-Custom"); ("url", "/api/elsewhere")] |}.

(** The empty string under "users", and a default. *)
Definition blank_with_default : EndpointRouterLink.EndpointRouterLinkOptions :=
  {| EndpointRouterLink.routerToEndpoint := [("users", EmptyString)];
     EndpointRouterLink.defaultEndpoint := Some "/api/default";
     EndpointRouterLink.strict := None;
     EndpointRouterLink.linkFactory := Some Demo.mockFactory;
     EndpointRouterLink.linkOptions := None |}.

(** The procedure paths of the mock router of [router-utils.test.ts]. *)
Definition MockProcedures : list string :=
  ["users.getAll"; "users.getById"; "billing.getInvoices";
   "billing.createInvoice"; "admin.getStats"].

End DemoMore.

(** * Proofs *)

Unset Implicit Arguments.

(** ** Maps and objects *)

Section MapFacts.
Variable V : Type.

Lemma JSMap_get_set_same (m : JSMap.t V) (k : string) (v : V) :
  JSMap.get (JSMap.set m k v) k = Some v.
Proof.
  induction m as [|[k' v'] m IH]; cbn.
  - now rewrite String.eqb_refl.
  - destruct (String.eqb k k') eqn:E; cbn; rewrite E; auto.
Qed.

Lemma JSMap_get_set_other (m : JSMap.t V) (k k' : string) (v : V) :
  k <> k' -> JSMap.get (JSMap.set m k v) k' = JSMap.get m k'.
Proof.
  intros Hne.
  induction m as [|[k0 v0] m IH]; cbn.
  - destruct (String.eqb k' k) eqn:E; auto.
    apply String.eqb_eq in E. congruence.
  - destruct (String.eqb k k0) eqn:E; cbn.
    + apply String.eqb_eq in E. subst k0.
      destruct (String.eqb k' k) eqn:E'; auto.
      apply String.eqb_eq in E'. congruence.
    + now rewrite IH.
Qed.

Lemma JSMap_get_None (m : JSMap.t V) (k : string) :
  JSMap.get m k = None <-> ~ In k (JSMap.keys m).
Proof.
  induction m as [|[k' v'] m IH]; cbn.
  - tauto.
  - destruct (String.eqb k k') eqn:E.
    + apply String.eqb_eq in E. subst. split; [discriminate | tauto].
    + apply String.eqb_neq in E. rewrite IH. split.
      * intros Hn [Heq | Hin]; [congruence | tauto].
      * tauto.
Qed.

Lemma JSMap_set_fresh (m : JSMap.t V) (k : string) (v : V) :
  JSMap.get m k = None -> JSMap.set m k v = (m ++ [(k, v)])%list.
Proof.
  induction m as [|[k' v'] m IH]; cbn; auto.
  destruct (String.eqb k k'); [discriminate |].
  intros Hn. now rewrite IH.
Qed.

Lemma JSMap_get_app (m m' : JSMap.t V) (k : string) :
  JSMap.get (m ++ m')%list k =
  match JSMap.get m k with Some v => Some v | None => JSMap.get m' k end.
Proof.
  induction m as [|[k' v'] m IH]; cbn; auto.
  destruct (String.eqb k k'); auto.
Qed.

Lemma JSMap_has_get (m : JSMap.t V) (k : string) :
  JSMap.has m k = true <-> exists v, JSMap.get m k = Some v.
Proof.
  unfold JSMap.has. destruct (JSMap.get m k).
  - split; eauto.
  - split; [discriminate | intros [v Hv]; discriminate].
Qed.

Lemma JSObject_get_In (o : JSObject.t V) (k : string) (v : V) :
  JSObject.wf o -> In (k, v) o -> JSObject.get o k = Some v.
Proof.
  unfold JSObject.wf.
  induction o as [|[k' v'] o IH]; cbn; [tauto |].
  intros Hnd [Heq | Hin].
  - inversion Heq; subst. now rewrite String.eqb_refl.
  - inversion Hnd as [|? ? Hnotin Hnd']; subst.
    destruct (String.eqb k k') eqn:E.
    + apply String.eqb_eq in E. subst k'.
      exfalso. apply Hnotin. change k with (fst (k, v)). now apply in_map.
    + auto.
Qed.

Lemma JSObject_get_None (o : JSObject.t V) (k : string) :
  JSObject.get o k = None <-> ~ In k (JSObject.keys o).
Proof. exact (JSMap_get_None o k). Qed.

End MapFacts.

(** ** The monad's steps *)

Section StepFacts.
Context `{Trpc}.

Lemma state_eta (s : State) :
  {| world := world s; cache := cache s; calls := calls s;
     objects := objects s |} = s.
Proof. now destruct s. Qed.

Lemma init_links_run (runtime : Runtime) (links : list TRPCLink) (s : State) :
  init_links runtime links s =
  (fst (init_all runtime links (world s)),
   {| world := snd (init_all runtime links (world s));
      cache := cache s;
      calls := (calls s ++ map InitCall links)%list;
      objects := objects s |}).
Proof.
  revert s. induction links as [|link rest IH]; intros s.
  - cbn. unfold ret. now rewrite app_nil_r, state_eta.
  - unfold init_links in *. cbn [map_each init_all].
    unfold bind at 1. unfold bind at 1. unfold probe, user. cbn [world cache calls objects].
    destruct (init_link link runtime (world s)) as [o w1].
    unfold bind at 1. rewrite IH. cbn [world cache calls fst snd objects].
    destruct (init_all runtime rest w1) as [os w2].
    unfold ret. cbn [fst snd map].
    now rewrite <- app_assoc.
Qed.

Lemma subscribe_chain_run (op : Op) (links : list OperationLink) (s : State) :
  subscribe_chain op links s =
  (fst (createChain op links (world s)),
   {| world := snd (createChain op links (world s));
      cache := cache s;
      calls := (calls s ++ [ChainCall op links])%list;
      objects := objects s |}).
Proof.
  unfold subscribe_chain, bind, probe, user. cbn [world cache calls objects].
  now destruct (createChain op links (world s)).
Qed.

Lemma init_calls_app (cs cs' : list Call) :
  init_calls (cs ++ cs') = (init_calls cs ++ init_calls cs')%list.
Proof.
  induction cs as [|[e|l|o ls] cs IH]; cbn; auto. now rewrite IH.
Qed.

Lemma chain_calls_app (cs cs' : list Call) :
  chain_calls (cs ++ cs') = (chain_calls cs ++ chain_calls cs')%list.
Proof.
  induction cs as [|[e|l|o ls] cs IH]; cbn; auto. now rewrite IH.
Qed.

Lemma factory_calls_app (e : Endpoint) (cs cs' : list Call) :
  factory_calls e (cs ++ cs') = factory_calls e cs + factory_calls e cs'.
Proof.
  induction cs as [|[e'|l|o ls] cs IH]; cbn; auto. rewrite IH. lia.
Qed.

Lemma init_calls_InitCall (links : list TRPCLink) :
  init_calls (map InitCall links) = links.
Proof. induction links; cbn; congruence. Qed.

Lemma chain_calls_InitCall (links : list TRPCLink) :
  chain_calls (map InitCall links) = [].
Proof. induction links; cbn; congruence. Qed.

Lemma factory_calls_InitCall (e : Endpoint) (links : list TRPCLink) :
  factory_calls e (map InitCall links) = 0.
Proof. induction links; cbn; congruence. Qed.

Lemma serve_cons (handle : Handler) (op : Op) (ops : list Op) (s : State) :
  serve handle (op :: ops) s =
  (fst (handle op s) :: fst (serve handle ops (snd (handle op s))),
   snd (serve handle ops (snd (handle op s)))).
Proof.
  unfold serve. cbn [map_each]. unfold bind at 1.
  destruct (handle op s) as [st s1]. unfold bind at 1. cbn [fst snd].
  now destruct (map_each handle ops s1).
Qed.

Lemma serve_app (handle : Handler) (ops more : list Op) :
  forall s : State,
    snd (serve handle (ops ++ more) s) =
    snd (serve handle more (snd (serve handle ops s))).
Proof.
  induction ops as [|op ops IH]; intros s; [reflexivity |].
  cbn [app]. rewrite !serve_cons. cbn [snd]. apply IH.
Qed.

End StepFacts.

(** ** The Switch Router *)

Section SwitchFacts.
Context `{Trpc}.
Import SwitchLink SwitchSpec.

(** The loop of lines 60-65 over the keys of [rest], a part of the cases
    none of whose keys is in the [Map] yet. *)
Lemma initialize_loop (opts : SwitchLinkOptions) (runtime : Runtime) :
  forall (rest : JSObject.t (LinkOrLinks TRPCLink)) (s : State),
    JSObject.wf rest ->
    (forall k v, In (k, v) rest -> JSObject.get (cases opts) k = Some v) ->
    (forall k, In k (JSObject.keys rest) -> JSMap.get (cache s) k = None) ->
    for_each (JSObject.keys rest) (fun key =>
      match JSObject.get (cases opts) key with
      | None => ret tt
      | Some linksOrLink =>
          let links := asArray linksOrLink in
          initializedLinks <- init_links runtime links ;;
          chains <- read_cache ;;
          write_cache (JSMap.set chains key initializedLinks)
      end) s =
    (tt, {| world := snd (materialize runtime rest (world s));
            cache := (cache s ++ fst (materialize runtime rest (world s)))%list;
            calls := (calls s ++ map InitCall (all_links rest))%list;
            objects := objects s |}).
Proof.
  induction rest as [|[k v] rest IH]; intros s Hwf Hget Hfresh.
  - cbn. unfold ret. now rewrite !app_nil_r, state_eta.
  - cbn [JSObject.keys map fst for_each].
    unfold bind at 1.
    rewrite (Hget k v (or_introl eq_refl)).
    cbn zeta. unfold bind at 1. rewrite init_links_run.
    unfold bind at 1. unfold read_cache, write_cache. cbn [world cache calls objects].
    rewrite JSMap_set_fresh by (apply Hfresh; now left).
    inversion Hwf as [|? ? Hnotin Hwf']; subst.
    fold (JSObject.keys rest) in *.
    rewrite IH; cbn [world cache calls objects].
    + cbn [materialize all_links flat_map snd].
      destruct (init_all runtime (asArray v) (world s)) as [chain w1].
      cbn [fst snd].
      destruct (materialize runtime rest w1) as [m w2].
      cbn [fst snd]. fold (all_links rest).
      now rewrite map_app, <- !app_assoc.
    + exact Hwf'.
    + intros k' v' Hin. apply Hget. now right.
    + intros k' Hin. rewrite JSMap_get_app.
      rewrite (Hfresh k') by now right.
      cbn. destruct (String.eqb k' k) eqn:E; auto.
      apply String.eqb_eq in E. subst. contradiction.
Qed.

Lemma initialize_run (opts : SwitchLinkOptions) (runtime : Runtime) (s : State) :
  JSObject.wf (cases opts) ->
  initialize opts (JSObject.keys (cases opts)) runtime s =
  (tt, {| world := snd (materialize runtime (cases opts) (world s));
          cache := fst (materialize runtime (cases opts) (world s));
          calls := (calls s ++ map InitCall (all_links (cases opts)))%list;
          objects := JSMap.empty |}).
Proof.
  intros Hwf. unfold initialize, bind at 1, new_Map.
  rewrite initialize_loop; auto.
  intros k v Hin. now apply JSObject_get_In.
Qed.

Lemma materialize_keys (runtime : Runtime) :
  forall (entries : JSObject.t (LinkOrLinks TRPCLink)) (w : World),
    JSMap.keys (fst (materialize runtime entries w)) = JSObject.keys entries.
Proof.
  induction entries as [|[k v] rest IH]; intros w; cbn; auto.
  destruct (init_all runtime (asArray v) w) as [chain w1].
  specialize (IH w1).
  destruct (materialize runtime rest w1) as [m w2].
  cbn in *. now rewrite IH.
Qed.

Lemma materialize_get (runtime : Runtime) :
  forall (entries : JSObject.t (LinkOrLinks TRPCLink)) (w : World) k v,
    JSObject.get entries k = Some v ->
    exists w', JSMap.get (fst (materialize runtime entries w)) k =
               Some (fst (init_all runtime (asArray v) w')).
Proof.
  induction entries as [|[k0 v0] rest IH]; intros w k v; cbn; [discriminate |].
  destruct (init_all runtime (asArray v0) w) as [chain w1] eqn:Echain.
  specialize (IH w1 k v).
  destruct (materialize runtime rest w1) as [m w2].
  cbn in *. destruct (String.eqb k k0).
  - intros [= ->]. exists w. now rewrite Echain.
  - exact IH.
Qed.

Lemma switch_handle_miss (opts : SwitchLinkOptions) (op : Op) (s : State)
    (key : string) (w1 : World) :
  selected opts op (world s) = (key, w1) ->
  JSMap.get (cache s) key = None ->
  handle opts op s =
  ([Error (TRPCClientError_from
             (mkError (unknown_key_message key
                         (Str.join ", " (JSMap.keys (cache s))))))],
   {| world := w1; cache := cache s; calls := calls s;
      objects := objects s |}).
Proof.
  unfold selected, handle, bind, user, read_cache. intros -> .
  cbn [world cache calls objects]. now intros ->.
Qed.

Lemma switch_handle_hit (opts : SwitchLinkOptions) (op : Op) (s : State)
    (key : string) (w1 : World) (links : list OperationLink) :
  selected opts op (world s) = (key, w1) ->
  JSMap.get (cache s) key = Some links ->
  handle opts op s =
  (fst (createChain op links w1),
   {| world := snd (createChain op links w1);
      cache := cache s;
      calls := (calls s ++ [ChainCall op links])%list;
      objects := objects s |}).
Proof.
  unfold selected, handle, bind at 1, user. intros -> .
  unfold bind at 1, read_cache. cbn [world cache calls objects]. intros ->.
  now rewrite subscribe_chain_run.
Qed.

(** A call never writes the [Map] and initializes no link. *)
Lemma switch_handle_frame (opts : SwitchLinkOptions) (op : Op) (s : State) :
  cache (snd (handle opts op s)) = cache s
  /\ init_calls (calls (snd (handle opts op s))) = init_calls (calls s).
Proof.
  destruct (selected opts op (world s)) as [key w1] eqn:Esel.
  destruct (JSMap.get (cache s) key) as [links|] eqn:Eget.
  - rewrite (switch_handle_hit _ _ _ _ _ _ Esel Eget). cbn [snd cache calls objects].
    rewrite init_calls_app. cbn. now rewrite app_nil_r.
  - rewrite (switch_handle_miss _ _ _ _ _ Esel Eget). now cbn.
Qed.

Lemma switch_serve_frame (opts : SwitchLinkOptions) (ops : list Op) :
  forall s : State,
    cache (snd (serve (handle opts) ops s)) = cache s
    /\ init_calls (calls (snd (serve (handle opts) ops s))) = init_calls (calls s).
Proof.
  induction ops as [|op ops IH]; intros s; [now cbn |].
  unfold serve in *. cbn [map_each]. unfold bind at 1 3.
  destruct (handle opts op s) as [st s1] eqn:E1.
  unfold bind at 1 2. specialize (IH s1).
  destruct (map_each (handle opts) ops s1) as [sts s2].
  unfold ret. cbn [snd] in *.
  pose proof (switch_handle_frame opts op s) as Hf. rewrite E1 in Hf. cbn [snd] in Hf.
  destruct IH as [IHc IHi]. destruct Hf as [Hc Hi].
  split; congruence.
Qed.

(** The state of a serving instance: its [Map] is the one built when it
    was handed the runtime. *)
Lemma serving_cache (opts : SwitchLinkOptions) (runtime : Runtime)
    (history : list Op) (s0 : State) :
  JSObject.wf (cases opts) ->
  cases opts <> [] ->
  cache (serving opts runtime history s0) =
  fst (materialize runtime (cases opts) (world s0)).
Proof.
  intros Hwf Hne.
  assert (Hlen : Nat.eqb (List.length (JSObject.keys (cases opts))) 0 = false)
    by (destruct (cases opts); [congruence | reflexivity]).
  unfold serving, switchLink. cbn zeta. rewrite Hlen.
  unfold run_link, bind at 1, bind at 1.
  rewrite initialize_run by exact Hwf.
  unfold ret.
  destruct (switch_serve_frame opts history
    {| world := snd (materialize runtime (cases opts) (world s0));
       cache := fst (materialize runtime (cases opts) (world s0));
       calls := (calls s0 ++ map InitCall (all_links (cases opts)))%list;
       objects := JSMap.empty |}) as [Hc _].
  exact Hc.
Qed.

End SwitchFacts.

(** ** Strings of the messages *)

Lemma includes_middle (a b c : string) : Str.includes (a ++ b ++ c) b.
Proof. now exists a, c. Qed.

Lemma includes_suffix (a b : string) : Str.includes (a ++ b) b.
Proof.
  exists a, EmptyString.
  assert (E : forall s : string, s ++ EmptyString = s)
    by (induction s; cbn; congruence).
  now rewrite E.
Qed.

Lemma append_assoc (a b c : string) : (a ++ b) ++ c = a ++ b ++ c.
Proof. induction a; cbn; congruence. Qed.

Lemma includes_in_prefix (a b c : string) :
  Str.includes a c -> Str.includes (a ++ b) c.
Proof.
  intros (x & y & ->). exists x, (y ++ b).
  now rewrite !append_assoc.
Qed.

Lemma includes_in_suffix (a b c : string) :
  Str.includes b c -> Str.includes (a ++ b) c.
Proof.
  intros (x & y & ->). exists (a ++ x), y.
  now rewrite !append_assoc.
Qed.

(** Discharges [JSObject.wf] of an object written out. *)
Ltac solve_wf :=
  unfold JSObject.wf; cbn;
  repeat (constructor; [cbn; intuition discriminate |]); constructor.

(** ** Claims about the Switch Router *)

Section SwitchClaims.
Context `{Trpc}.
Import SwitchLink SwitchSpec.

(** C6.  Constructing a Switch Router succeeds for every cases mapping
    with at least one entry: [switchLink] returns the link.  For the empty
    mapping it throws, at construction, an error whose message contains
    "cases object must have at least one entry". *)
Theorem switchLink_construction (opts : SwitchLinkOptions) :
  match cases opts with
  | [] =>
      exists e, switchLink opts = Throw e
                /\ Str.includes (message e) "cases object must have at least one entry"
  | _ :: _ =>
      switchLink opts =
      Return (fun runtime =>
                initialize opts (JSObject.keys (cases opts)) runtime ;;
                ret (handle opts))
  end.
Proof.
  unfold switchLink. destruct (cases opts) as [|e rest]; cbn.
  - eexists. split; [reflexivity |]. cbn [message].
    exact (includes_suffix "switchLink: " "cases object must have at least one entry").
  - reflexivity.
Qed.

(** C4.  When the Switch Router is handed the runtime it materializes
    every declared case, eagerly and once: it normalizes the value of every
    key of the cases mapping, initializes each link in order with the
    runtime, and stores the initialized list in the chain cache under that
    key, before any operation is served and whether or not the key is ever
    selected.  Serving operations afterwards initializes nothing and leaves
    the cache as it is. *)
Theorem switch_initialization_materializes_every_case
    (opts : SwitchLinkOptions) (runtime : Runtime) (s0 : State)
    (link : Runtime -> M State Handler) :
  JSObject.wf (cases opts) ->
  switchLink opts = Return link ->
  let s1 := snd (link runtime s0) in
  let handler := fst (link runtime s0) in
  (cache s1, world s1) = materialize runtime (cases opts) (world s0)
  /\ JSMap.keys (cache s1) = JSObject.keys (cases opts)
  /\ (forall key value,
        JSObject.get (cases opts) key = Some value ->
        exists w, JSMap.get (cache s1) key =
                  Some (fst (init_all runtime (asArray value) w)))
  /\ calls s1 = (calls s0 ++ map InitCall (all_links (cases opts)))%list
  /\ (forall history,
        let s2 := snd (serve handler history s1) in
        cache s2 = cache s1 /\ init_calls (calls s2) = init_calls (calls s1)).
Proof.
  intros Hwf Hlink s1 handler.
  unfold switchLink in Hlink. cbn zeta in Hlink.
  destruct (Nat.eqb (List.length (JSObject.keys (cases opts))) 0);
    [discriminate |].
  injection Hlink as <-.
  subst s1 handler. unfold bind.
  rewrite initialize_run by exact Hwf. unfold ret. cbn [fst snd world cache calls objects].
  repeat split.
  - now destruct (materialize runtime (cases opts) (world s0)).
  - apply materialize_keys.
  - intros key value Hget. now apply materialize_get.
  - apply switch_serve_frame.
  - apply switch_serve_frame.
Qed.

(** C1, as the code has it.  For every operation whose selector output
    is a key absent from the cases mapping, the result stream of the Switch
    Router is exactly one error, whose message names the unknown key and
    lists every valid case key joined by ", ".  The error is the only
    notification: it ends the stream, no value and no completion
    notification is sent.  The failure is per call: the handler returns,
    and leaves the chain cache and the calls made as they were. *)
Theorem switch_unknown_key_error
    (opts : SwitchLinkOptions) (runtime : Runtime) (history : list Op)
    (s0 : State) (op : Op) (key : string) (w1 : World) :
  JSObject.wf (cases opts) ->
  cases opts <> [] ->
  let s := serving opts runtime history s0 in
  selected opts op (world s) = (key, w1) ->
  JSObject.get (cases opts) key = None ->
  let validKeys := Str.join ", " (JSObject.keys (cases opts)) in
  let msg := unknown_key_message key validKeys in
  handle opts op s =
    ([Error (TRPCClientError_from (mkError msg))],
     {| world := w1; cache := cache s; calls := calls s;
        objects := objects s |})
  /\ Str.includes msg (Str.quoted key)
  /\ Str.includes msg validKeys
  /\ completions (fst (handle opts op s)) = 0
  /\ values (fst (handle opts op s)) = 0.
Proof.
  intros Hwf Hne s Hsel Hget validKeys msg.
  assert (Hcache : cache s = fst (materialize runtime (cases opts) (world s0)))
    by now apply serving_cache.
  assert (Hkeys : JSMap.keys (cache s) = JSObject.keys (cases opts))
    by (rewrite Hcache; apply materialize_keys).
  assert (Hmiss : JSMap.get (cache s) key = None).
  { apply JSMap_get_None. rewrite Hkeys. now apply JSObject_get_None. }
  rewrite (switch_handle_miss opts op s key w1 Hsel Hmiss), Hkeys.
  fold validKeys. fold msg. cbn [fst].
  repeat split.
  - subst msg. unfold unknown_key_message. apply includes_middle.
  - subst msg. unfold unknown_key_message.
    do 3 apply includes_in_suffix. apply includes_suffix.
Qed.

End SwitchClaims.

(** C6 at the two mappings of the tests. *)
Example switchLink_construction_demo :
  (exists e, SwitchLink.switchLink (H := Demo.trpc) Demo.no_cases = Throw e
             /\ message e = "switchLink: cases object must have at least one entry")
  /\ (exists link, SwitchLink.switchLink (H := Demo.trpc) Demo.by_role = Return link).
Proof. split; eexists; [split |]; reflexivity. Qed.

(** ** The Endpoint Router *)

Section EndpointFacts.
Context `{Trpc}.
Import EndpointRouterLink EndpointSpec.

Lemma Endpoint_eqb_eq (a b : Endpoint) : Endpoint_eqb a b = true <-> a = b.
Proof.
  destruct a as [x | x], b as [y | y]; cbn;
    try (split; [discriminate | congruence]);
    rewrite String.eqb_eq; split; congruence.
Qed.

Lemma Endpoint_eqb_neq (a b : Endpoint) : Endpoint_eqb a b = false <-> a <> b.
Proof.
  rewrite <- Endpoint_eqb_eq. destruct (Endpoint_eqb a b); split; congruence.
Qed.

(** [map.set] then [map.get]. *)
Lemma cached_Map_set_same (s : State) (e : Endpoint) (links : list OperationLink) :
  cached (snd (Map_set e links s)) e = Some links.
Proof. destruct e; cbn; apply JSMap_get_set_same. Qed.

Lemma cached_Map_set_other (s : State) (e e' : Endpoint)
    (links : list OperationLink) :
  e <> e' -> cached (snd (Map_set e links s)) e' = cached s e'.
Proof.
  intros Hne. destruct e as [x | x], e' as [y | y]; cbn; auto;
    apply JSMap_get_set_other; congruence.
Qed.

Lemma Map_set_frame (s : State) (e : Endpoint) (links : list OperationLink) :
  world (snd (Map_set e links s)) = world s
  /\ calls (snd (Map_set e links s)) = calls s.
Proof. now destruct e. Qed.

Lemma getInitializedLinks_hit (opts : EndpointRouterLinkOptions)
    (runtime : Runtime) (e : Endpoint) (s : State) (links : list OperationLink) :
  cached s e = Some links ->
  getInitializedLinks opts runtime e s = (links, s).
Proof.
  unfold getInitializedLinks, bind, Map_get. now intros ->.
Qed.

(** The factory's answer for [e] in world [w]. *)
Lemma getInitializedLinks_miss (opts : EndpointRouterLinkOptions)
    (runtime : Runtime) (e : Endpoint) (s : State) :
  cached s e = None ->
  let made := createLink opts e (world s) in
  let built := init_all runtime (asArray (fst made)) (snd made) in
  getInitializedLinks opts runtime e s =
  (fst built,
   snd (Map_set e (fst built)
          {| world := snd built;
             cache := cache s;
             calls := (calls s ++ FactoryCall e
                               :: map InitCall (asArray (fst made)))%list;
             objects := objects s |})).
Proof.
  intros Hmiss made built. subst made built.
  unfold getInitializedLinks, bind at 1, Map_get. rewrite Hmiss.
  unfold bind at 1, bind at 1, probe, user. cbn [world cache calls objects].
  destruct (createLink opts e (world s)) as [linksOrLink w1].
  cbn zeta. unfold bind at 1. rewrite init_links_run.
  cbn [world cache calls objects fst snd].
  unfold bind, ret. rewrite <- app_assoc. cbn [app].
  now destruct (Map_set e _ _).
Qed.

Lemma endpoint_handle_error (opts : EndpointRouterLinkOptions)
    (runtime : Runtime) (op : Op) (s : State) :
  not_endpoint (endpoint_of opts op) = true ->
  handle opts runtime op s =
  ([Error (TRPCClientError_from (mkError (errorMessage opts (routerName op))))], s).
Proof.
  unfold handle. cbn zeta. now intros ->.
Qed.

Lemma endpoint_handle_route (opts : EndpointRouterLinkOptions)
    (runtime : Runtime) (op : Op) (s : State) (e : Endpoint) :
  endpoint_of opts op = Some e ->
  not_endpoint (Some e) = false ->
  let got := getInitializedLinks opts runtime e s in
  handle opts runtime op s =
  (fst (createChain op (fst got) (world (snd got))),
   {| world := snd (createChain op (fst got) (world (snd got)));
      cache := cache (snd got);
      calls := (calls (snd got) ++ [ChainCall op (fst got)])%list;
      objects := objects (snd got) |}).
Proof.
  intros He Ht got. subst got. unfold handle. cbn zeta.
  rewrite He, Ht.
  unfold bind at 1.
  destruct (getInitializedLinks opts runtime e s) as [links s1].
  cbn [fst snd]. apply subscribe_chain_run.
Qed.

(** The endpoint resolves, or it does not. *)
Lemma endpoint_cases (opts : EndpointRouterLinkOptions) (op : Op) :
  not_endpoint (endpoint_of opts op) = true
  \/ exists e, endpoint_of opts op = Some e /\ not_endpoint (Some e) = false.
Proof.
  destruct (endpoint_of opts op) as [e|]; auto.
  destruct (not_endpoint (Some e)) eqn:E; eauto.
Qed.

(** What a routed call leaves, given that its endpoint was cached or
    not. *)
Lemma endpoint_route_state (opts : EndpointRouterLinkOptions)
    (runtime : Runtime) (op : Op) (s : State) (e : Endpoint) :
  endpoint_of opts op = Some e ->
  not_endpoint (Some e) = false ->
  let s' := snd (handle opts runtime op s) in
  match cached s e with
  | Some links =>
      cache s' = cache s /\ objects s' = objects s
      /\ calls s' = (calls s ++ [ChainCall op links])%list
      /\ fst (handle opts runtime op s) = fst (createChain op links (world s))
      /\ world s' = snd (createChain op links (world s))
  | None =>
      let made := createLink opts e (world s) in
      let built := init_all runtime (asArray (fst made)) (snd made) in
      cached s' e = Some (fst built)
      /\ (forall e', e <> e' -> cached s' e' = cached s e')
      /\ calls s' =
         (calls s ++ FactoryCall e :: map InitCall (asArray (fst made))
                  ++ [ChainCall op (fst built)])%list
      /\ fst (handle opts runtime op s) = fst (createChain op (fst built) (snd built))
      /\ world s' = snd (createChain op (fst built) (snd built))
  end.
Proof.
  intros He Ht s'. subst s'.
  rewrite (endpoint_handle_route opts runtime op s e He Ht).
  destruct (cached s e) as [links|] eqn:Eget.
  - rewrite (getInitializedLinks_hit opts runtime e s links Eget).
    cbn [fst snd world cache calls objects]. repeat split.
  - rewrite (getInitializedLinks_miss opts runtime e s Eget).
    cbn [fst snd].
    set (made := createLink opts e (world s)).
    set (built := init_all runtime (asArray (fst made)) (snd made)).
    set (mid := {| world := snd built; cache := cache s;
                   calls := (calls s ++ FactoryCall e
                                     :: map InitCall (asArray (fst made)))%list;
                   objects := objects s |}).
    cbn zeta.
    pose proof (cached_Map_set_same mid e (fst built)) as Hsame.
    pose proof (cached_Map_set_other mid e) as Hother.
    destruct (Map_set_frame mid e (fst built)) as [Hw Hc].
    set (s1 := snd (Map_set e (fst built) mid)) in *.
    assert (Hfr : forall w c E,
              cached {| world := w; cache := cache s1; calls := c;
                        objects := objects s1 |} E = cached s1 E)
      by (now intros w c [x | x]).
    cbn [calls world]. rewrite !Hfr.
    split; [exact Hsame |].
    split; [intros e' Hne; rewrite Hfr; now apply Hother |].
    rewrite Hc, Hw. subst mid. cbn [calls world].
    rewrite <- app_assoc. cbn [app]. repeat split.
Qed.

(** One call: what it does to the cache and to the probe. *)
Lemma endpoint_handle_step (opts : EndpointRouterLinkOptions)
    (runtime : Runtime) (op : Op) (s : State) :
  let s' := snd (handle opts runtime op s) in
  (forall E, factory_calls E (calls s') + b2n (is_cached s E) =
             factory_calls E (calls s) + b2n (is_cached s' E))
  /\ (forall E links, cached s E = Some links -> cached s' E = Some links)
  /\ (forall E, is_cached s' E = true <->
                is_cached s E = true
                \/ (endpoint_of opts op = Some E /\ not_endpoint (Some E) = false))
  /\ (exists new, chain_calls (calls s') = (chain_calls (calls s) ++ new)%list
        /\ List.length new <= 1
        /\ forall o links, In (o, links) new ->
             o = op /\ exists E, endpoint_of opts op = Some E
                                 /\ cached s' E = Some links).
Proof.
  intros s'.
  destruct (endpoint_cases opts op) as [Herr | (e & He & Ht)].
  - subst s'. rewrite endpoint_handle_error by exact Herr. cbn [snd].
    repeat split; auto.
    + intros [Hh | [He Ht]]; auto.
      rewrite He in Herr. congruence.
    + exists []. split; [now rewrite app_nil_r |].
      split; [cbn; lia | intros ? ? []].
  - pose proof (endpoint_route_state opts runtime op s e He Ht) as R.
    cbn zeta in R. fold s' in R.
    destruct (cached s e) as [links|] eqn:Eget.
    + destruct R as (Rc & Ro & Rcalls & _ & _).
      assert (Hsame : forall E, cached s' E = cached s E)
        by (intros [x | x]; cbn; congruence).
      assert (Hsame' : forall E, is_cached s' E = is_cached s E)
        by (intros E; unfold is_cached; now rewrite Hsame).
      repeat split.
      * intros E. rewrite Rcalls, factory_calls_app, Hsame'. cbn. lia.
      * intros E l Hl. now rewrite Hsame.
      * rewrite Hsame'. auto.
      * rewrite Hsame'. intros [Hh | [He' _]]; auto.
        assert (E = e) by congruence. subst E.
        unfold is_cached. now rewrite Eget.
      * exists [(op, links)]. split; [| split].
        -- rewrite Rcalls, chain_calls_app. reflexivity.
        -- cbn; lia.
        -- intros o ls [[= <- <-] | []]. split; auto.
           exists e. split; auto. now rewrite Hsame.
    + destruct R as (Rget & Rother & Rcalls & _ & _).
      set (made := createLink opts e (world s)) in *.
      set (built := init_all runtime (asArray (fst made)) (snd made)) in *.
      assert (Hhas : forall E, is_cached s' E =
                               (Endpoint_eqb e E || is_cached s E)%bool).
      { intros E. unfold is_cached. destruct (Endpoint_eqb e E) eqn:EE.
        - apply Endpoint_eqb_eq in EE. subst E. now rewrite Rget.
        - apply Endpoint_eqb_neq in EE. now rewrite (Rother E EE). }
      repeat split.
      * intros E. rewrite Hhas, Rcalls, !factory_calls_app. cbn [factory_calls].
        rewrite factory_calls_app, factory_calls_InitCall. cbn [factory_calls].
        destruct (Endpoint_eqb e E) eqn:EE; cbn; [|lia].
        apply Endpoint_eqb_eq in EE. subst E.
        unfold is_cached. rewrite Eget. cbn. lia.
      * intros E links Hget.
        rewrite Rother; auto. congruence.
      * rewrite Hhas. intros Hor. apply orb_true_iff in Hor.
        destruct Hor as [EE | Hh]; auto.
        apply Endpoint_eqb_eq in EE. subst E. auto.
      * rewrite Hhas. intros [Hh | [He' _]]; apply orb_true_iff; auto.
        left. apply Endpoint_eqb_eq. congruence.
      * exists [(op, fst built)]. split; [| split].
        -- rewrite Rcalls, !chain_calls_app. cbn [chain_calls].
           rewrite chain_calls_app, chain_calls_InitCall. reflexivity.
        -- cbn; lia.
        -- intros o ls [[= <- <-] | []]. split; auto.
           exists e. split; auto.
Qed.

End EndpointFacts.

Section EndpointRuns.
Context `{Trpc}.
Import EndpointRouterLink EndpointSpec.

(** Any number of calls: the invariants of one call, composed. *)
Lemma endpoint_serve_inv (opts : EndpointRouterLinkOptions) (runtime : Runtime) :
  forall (ops : list Op) (s : State),
    let s' := snd (serve (handle opts runtime) ops s) in
    (forall E, factory_calls E (calls s') + b2n (is_cached s E) =
               factory_calls E (calls s) + b2n (is_cached s' E))
    /\ (forall E links, cached s E = Some links -> cached s' E = Some links)
    /\ (forall E, is_cached s' E = true <->
                  is_cached s E = true
                  \/ exists op, In op ops /\ endpoint_of opts op = Some E
                                /\ not_endpoint (Some E) = false)
    /\ (exists new, chain_calls (calls s') = (chain_calls (calls s) ++ new)%list
          /\ forall o links, In (o, links) new ->
               In o ops /\ exists E, endpoint_of opts o = Some E
                                     /\ cached s' E = Some links).
Proof.
  induction ops as [|op ops IH]; intros s s'; subst s'.
  - cbn [serve map_each ret snd]. repeat split; auto.
    + intros [Hh | (o & [] & _)]; auto.
    + exists []. split; [now rewrite app_nil_r | intros ? ? []].
  - rewrite serve_cons. cbn [snd].
    destruct (endpoint_handle_step opts runtime op s)
      as (F1 & K1 & H1 & new1 & C1 & _ & N1).
    set (s1 := snd (handle opts runtime op s)) in *.
    destruct (IH s1) as (F2 & K2 & H2 & new2 & C2 & N2).
    set (s2 := snd (serve (handle opts runtime) ops s1)) in *.
    repeat split.
    + intros E. specialize (F1 E). specialize (F2 E). lia.
    + intros E links Hget. auto.
    + intros Hh. apply H2 in Hh. destruct Hh as [Hh | (o & Hin & He & Ht)].
      * apply H1 in Hh. destruct Hh as [Hh | [He Ht]]; auto.
        right. exists op. cbn. auto.
      * right. exists o. cbn. auto.
    + intros [Hh | (o & [<- | Hin] & He & Ht)]; apply H2.
      * left. apply H1. auto.
      * left. apply H1. auto.
      * right. eauto.
    + exists (new1 ++ new2)%list. split.
      * rewrite C2, C1. now rewrite app_assoc.
      * intros o links Hin. apply in_app_or in Hin. destruct Hin as [Hin | Hin].
        -- destruct (N1 o links Hin) as (-> & E & He & Hget).
           split; [now left |]. exists E. split; auto.
        -- destruct (N2 o links Hin) as (Hin' & E & He & Hget).
           split; [now right |]. eauto.
Qed.

Lemma endpoint_serving_unfold (opts : EndpointRouterLinkOptions)
    (runtime : Runtime) (history : list Op) (s0 : State) :
  serving opts runtime history s0 =
  snd (serve (handle opts runtime) history
         {| world := world s0; cache := JSMap.empty; calls := calls s0;
            objects := JSMap.empty |}).
Proof. reflexivity. Qed.

End EndpointRuns.

(** ** Claims about the Endpoint Router *)

Section EndpointClaims.
Context `{Trpc}.
Import EndpointRouterLink EndpointSpec.

(** C3.  In one initialized Endpoint Router instance the chain cache is
    keyed by the endpoint value, a string of the configuration being keyed
    by the string itself: after any operations, its keys are the endpoints
    those operations resolved to.  The link factory has run once for each
    of them and never for another value, however many operations went
    through.  Every chain executed for an operation got the list cached for
    the operation's endpoint, so operations of two router names mapped to
    one endpoint string get one and the same initialized chain.  A cached
    chain is never evicted or replaced. *)
Theorem endpoint_chain_cache
    (opts : EndpointRouterLinkOptions) (runtime : Runtime)
    (history : list Op) (w : World) :
  let s := serving opts runtime history (fresh w) in
  (forall E, factory_calls E (calls s) = b2n (is_cached s E))
  /\ (forall E, factory_calls E (calls s) <= 1)
  /\ (forall E, is_cached s E = true <->
                exists op, In op history /\ endpoint_of opts op = Some E
                           /\ not_endpoint (Some E) = false)
  /\ (forall url, JSMap.has (cache s) url = true <->
                  exists op, In op history /\ endpoint_of opts op = Some (Url url)
                             /\ Str.truthy url = true)
  /\ (forall op links,
        In (op, links) (chain_calls (calls s)) ->
        exists E, endpoint_of opts op = Some E
                  /\ cached s E = Some links)
  /\ (forall op1 op2 links1 links2,
        endpoint_of opts op1 = endpoint_of opts op2 ->
        In (op1, links1) (chain_calls (calls s)) ->
        In (op2, links2) (chain_calls (calls s)) ->
        links1 = links2)
  /\ (forall more E links,
        cached s E = Some links ->
        cached (serving opts runtime (history ++ more) (fresh w)) E
        = Some links).
Proof.
  intros s. subst s. rewrite endpoint_serving_unfold.
  cbn [fresh world cache calls objects].
  set (s0 := {| world := w; cache := JSMap.empty; calls := [];
                objects := JSMap.empty |}).
  destruct (endpoint_serve_inv opts runtime history s0)
    as (F & K & Hh & new & C & N).
  set (s := snd (serve (handle opts runtime) history s0)) in *.
  assert (Hempty : forall E, is_cached s0 E = false) by (now intros [x | x]).
  cbn [calls s0 chain_calls factory_calls app] in F, C.
  assert (Fact : forall E, factory_calls E (calls s) = b2n (is_cached s E)).
  { intros E. specialize (F E). rewrite Hempty in F. cbn in F. lia. }
  assert (Keys : forall E, is_cached s E = true <->
            exists op, In op history /\ endpoint_of opts op = Some E
                       /\ not_endpoint (Some E) = false).
  { intros E. rewrite Hh, Hempty. split.
    - intros [Hf | Hex]; [discriminate | exact Hex].
    - intros Hex. now right. }
  assert (Used : forall op links, In (op, links) (chain_calls (calls s)) ->
            exists E, endpoint_of opts op = Some E
                      /\ cached s E = Some links).
  { intros op links Hin. rewrite C in Hin.
    destruct (N op links Hin) as (_ & E & He & Hget). eauto. }
  split; [exact Fact |].
  split; [intros E; rewrite Fact; destruct (is_cached s E); cbn; lia |].
  split; [exact Keys |].
  split.
  { intros url. specialize (Keys (Url url)).
    unfold is_cached, cached in Keys. unfold JSMap.has.
    rewrite Keys. split; intros (op & Hin & He & Ht); exists op;
      (split; [exact Hin | split; [exact He |]]);
      cbn in *; destruct (Str.truthy url); cbn in *; congruence. }
  split; [exact Used |].
  split.
  - intros op1 op2 links1 links2 Heq Hin1 Hin2.
    destruct (Used op1 links1 Hin1) as (E1 & He1 & Hg1).
    destruct (Used op2 links2 Hin2) as (E2 & He2 & Hg2).
    congruence.
  - intros more E links Hget.
    rewrite endpoint_serving_unfold. cbn [fresh world cache calls objects].
    fold s0. rewrite serve_app. fold s.
    destruct (endpoint_serve_inv opts runtime more s) as (_ & K' & _).
    now apply K'.
Qed.


End EndpointClaims.

(** ** The router name *)

Lemma split_head (sep : ascii) (s : string) :
  exists rest, Str.split sep s = EndpointSpec.before_first sep s :: rest.
Proof.
  induction s as [|c s [rest IH]]; cbn.
  - now exists [].
  - destruct (Ascii.eqb c sep).
    + eauto.
    + rewrite IH. eauto.
Qed.


Lemma before_first_whole (sep : ascii) (s : string) :
  Str.has_char sep s = false -> EndpointSpec.before_first sep s = s.
Proof.
  induction s as [|c s IH]; cbn; auto.
  destruct (Ascii.eqb c sep); cbn; [discriminate |].
  intros Hn. now rewrite IH.
Qed.


Section EndpointNameClaims.
Context `{Trpc}.
Import EndpointRouterLink EndpointSpec.



(** C9.  For every configuration, [typedEndpointRouterLink] is
    [endpointRouterLink] applied to the same configuration, read at the
    other interface: the fields pass unchanged, and the two links do the
    same on every runtime, every sequence of operations and every state. *)
Theorem typed_router_is_endpoint_router
    (opts : TypedEndpointRouterLinkOptions) (runtime : Runtime)
    (ops : list Op) (s : State) :
  let same := as_EndpointRouterLinkOptions opts in
  routerToEndpoint same = typed_routerToEndpoint opts
  /\ defaultEndpoint same = typed_defaultEndpoint opts
  /\ strict same = typed_strict opts
  /\ linkFactory same = typed_linkFactory opts
  /\ linkOptions same = typed_linkOptions opts
  /\ typedEndpointRouterLink opts = endpointRouterLink same
  /\ run_link (typedEndpointRouterLink opts) runtime ops s =
     run_link (endpointRouterLink same) runtime ops s.
Proof.
  intros same. subst same. unfold typedEndpointRouterLink.
  repeat split.
Qed.

End EndpointNameClaims.

(** ** Equal configurations up to normalization *)

Section Normalization.
Context `{Trpc}.

Lemma for_each_ext {A : Type} (f g : A -> M State unit) (l : list A) :
  (forall x s, f x s = g x s) -> forall s, for_each l f s = for_each l g s.
Proof.
  intros Hfg. induction l as [|x l IH]; intros s; [reflexivity |].
  cbn [for_each]. unfold bind. rewrite Hfg.
  destruct (g x s) as [u s1]. apply IH.
Qed.

Lemma serve_ext (f g : Handler) (ops : list Op) :
  (forall op s, f op s = g op s) -> forall s, serve f ops s = serve g ops s.
Proof.
  intros Hfg. induction ops as [|op ops IH]; intros s; [reflexivity |].
  rewrite !serve_cons, Hfg, IH. reflexivity.
Qed.

Lemma normalized_get (entries : JSObject.t (LinkOrLinks TRPCLink)) (k : string) :
  JSObject.get (SwitchSpec.normalized entries) k =
  option_map SwitchLink.asArray (JSObject.get entries k).
Proof.
  induction entries as [|[k' v] rest IH]; cbn; auto.
  destruct (String.eqb k k'); auto.
Qed.

Lemma normalized_keys (entries : JSObject.t (LinkOrLinks TRPCLink)) :
  JSObject.keys (SwitchSpec.normalized entries) = JSObject.keys entries.
Proof.
  unfold SwitchSpec.normalized, JSObject.keys. rewrite map_map. reflexivity.
Qed.

Lemma switch_initialize_normalized (opts1 opts2 : SwitchLink.SwitchLinkOptions)
    (runtime : Runtime) (s : State) :
  SwitchSpec.normalized (SwitchLink.cases opts1) =
  SwitchSpec.normalized (SwitchLink.cases opts2) ->
  SwitchLink.initialize opts1 (JSObject.keys (SwitchLink.cases opts1)) runtime s =
  SwitchLink.initialize opts2 (JSObject.keys (SwitchLink.cases opts2)) runtime s.
Proof.
  intros Hn. unfold SwitchLink.initialize.
  rewrite <- (normalized_keys (SwitchLink.cases opts1)), Hn, normalized_keys.
  set (keys := JSObject.keys (SwitchLink.cases opts2)).
  unfold bind at 1. symmetry. unfold bind at 1. symmetry.
  destruct (write_cache JSMap.empty s) as [u s1].
  apply for_each_ext. intros key s'.
  pose proof (normalized_get (SwitchLink.cases opts1) key) as E1.
  pose proof (normalized_get (SwitchLink.cases opts2) key) as E2.
  rewrite Hn, E2 in E1.
  destruct (JSObject.get (SwitchLink.cases opts1) key) as [v1|],
           (JSObject.get (SwitchLink.cases opts2) key) as [v2|];
    cbn in E1; try discriminate; auto.
  injection E1 as E1. cbn zeta. now rewrite E1.
Qed.

Lemma endpoint_handle_normalized
    (opts1 opts2 : EndpointRouterLink.EndpointRouterLinkOptions)
    (runtime : Runtime) :
  EndpointRouterLink.routerToEndpoint opts1 = EndpointRouterLink.routerToEndpoint opts2 ->
  EndpointRouterLink.defaultEndpoint opts1 = EndpointRouterLink.defaultEndpoint opts2 ->
  EndpointRouterLink.strict opts1 = EndpointRouterLink.strict opts2 ->
  (forall e w,
     EndpointRouterLink.asArray (fst (EndpointRouterLink.createLink opts1 e w)) =
     EndpointRouterLink.asArray (fst (EndpointRouterLink.createLink opts2 e w))
     /\ snd (EndpointRouterLink.createLink opts1 e w) =
        snd (EndpointRouterLink.createLink opts2 e w)) ->
  forall op s,
    EndpointRouterLink.handle opts1 runtime op s =
    EndpointRouterLink.handle opts2 runtime op s.
Proof.
  intros Hmap Hdef Hstrict Hfac op s.
  assert (Hend : EndpointRouterLink.endpoint_of opts1 op =
                 EndpointRouterLink.endpoint_of opts2 op)
    by (unfold EndpointRouterLink.endpoint_of, EndpointRouterLink.mapped;
        now rewrite Hmap, Hdef).
  assert (Hmsg : forall n, EndpointRouterLink.errorMessage opts1 n =
                           EndpointRouterLink.errorMessage opts2 n)
    by (intros n; unfold EndpointRouterLink.errorMessage,
          EndpointRouterLink.strict_flag; now rewrite Hmap, Hstrict).
  destruct (endpoint_cases opts1 op) as [Herr | (e & He & Ht)].
  - rewrite !endpoint_handle_error, Hmsg; congruence.
  - rewrite (endpoint_handle_route opts1 runtime op s e He Ht).
    rewrite Hend in He.
    rewrite (endpoint_handle_route opts2 runtime op s e He Ht).
    assert (Hg : EndpointRouterLink.getInitializedLinks opts1 runtime e s =
                 EndpointRouterLink.getInitializedLinks opts2 runtime e s).
    { destruct (cached s e) as [l0|] eqn:Eget.
      - now rewrite !(getInitializedLinks_hit _ runtime e s l0 Eget).
      - rewrite !(getInitializedLinks_miss _ runtime e s Eget).
        destruct (Hfac e (world s)) as [Ha Hw]. now rewrite Ha, Hw. }
    now rewrite Hg.
Qed.

End Normalization.

(** ** Claims about both routers *)

Section RouterClaims.
Context `{Trpc}.

(** C5.  Switch Router: for an operation whose selector output is a key
    present in the cases mapping, the handler executes the chain once, with
    the operation and the list cached for that key, and the result stream
    is the chain's stream as it is.  Endpoint Router: for an operation whose
    endpoint resolves, the handler executes the chain once, with the
    operation and the list cached for the endpoint (the one already there,
    or the one it has just built), and the result stream is the chain's
    stream as it is.  Nothing is run after the chain. *)
Theorem resolved_chain_is_forwarded :
  (forall (opts : SwitchLink.SwitchLinkOptions) (runtime : Runtime)
          (history : list Op) (s0 : State) (op : Op) (key : string) (w1 : World),
      JSObject.wf (SwitchLink.cases opts) ->
      let s := SwitchSpec.serving opts runtime history s0 in
      SwitchSpec.selected opts op (world s) = (key, w1) ->
      In key (JSObject.keys (SwitchLink.cases opts)) ->
      exists links,
        JSMap.get (cache s) key = Some links
        /\ SwitchLink.handle opts op s =
           (fst (createChain op links w1),
            {| world := snd (createChain op links w1);
               cache := cache s;
               calls := (calls s ++ [ChainCall op links])%list;
               objects := objects s |}))
  /\ (forall (opts : EndpointRouterLink.EndpointRouterLinkOptions)
             (runtime : Runtime) (op : Op) (s : State) (e : Endpoint),
        EndpointRouterLink.endpoint_of opts op = Some e ->
        EndpointRouterLink.not_endpoint (Some e) = false ->
        let s' := snd (EndpointRouterLink.handle opts runtime op s) in
        exists links w1,
          cached s' e = Some links
          /\ (forall before, cached s e = Some before ->
                             links = before /\ w1 = world s)
          /\ fst (EndpointRouterLink.handle opts runtime op s) =
             fst (createChain op links w1)
          /\ world s' = snd (createChain op links w1)
          /\ chain_calls (calls s') = (chain_calls (calls s) ++ [(op, links)])%list).
Proof.
  split.
  - intros opts runtime history s0 op key w1 Hwf s Hsel Hin.
    assert (Hne : SwitchLink.cases opts <> [])
      by (intros E; rewrite E in Hin; exact Hin).
    assert (Hcache : cache s =
              fst (SwitchSpec.materialize runtime (SwitchLink.cases opts) (world s0)))
      by now apply serving_cache.
    destruct (JSMap.get (cache s) key) as [links|] eqn:Eget.
    + exists links. split; [reflexivity |].
      exact (switch_handle_hit opts op s key w1 links Hsel Eget).
    + exfalso. apply JSMap_get_None in Eget.
      rewrite Hcache, materialize_keys in Eget. contradiction.
  - intros opts runtime op s e He Ht s'.
    pose proof (endpoint_route_state opts runtime op s e He Ht) as R.
    cbn zeta in R. fold s' in R.
    destruct (cached s e) as [l0|] eqn:Eget.
    + destruct R as (Rc & Ro & Rcalls & Rstream & Rworld).
      exists l0, (world s).
      split; [unfold cached in *; destruct e; rewrite ?Rc, ?Ro; exact Eget |].
      split; [intros before [= <-]; auto |].
      split; [exact Rstream |]. split; [exact Rworld |].
      rewrite Rcalls, chain_calls_app. reflexivity.
    + destruct R as (Rget & _ & Rcalls & Rstream & Rworld).
      set (made := EndpointRouterLink.createLink opts e (world s)) in *.
      set (built := init_all runtime (EndpointRouterLink.asArray (fst made))
                     (snd made)) in *.
      exists (fst built), (snd built).
      split; [exact Rget |].
      split; [discriminate |].
      split; [exact Rstream |]. split; [exact Rworld |].
      rewrite Rcalls, chain_calls_app. cbn [chain_calls].
      rewrite chain_calls_app, chain_calls_InitCall. reflexivity.
Qed.

(** C10.  A routing error leaves the router as it was.  When the Switch
    Router sends the unknown-key error, or the Endpoint Router the
    no-endpoint error, that call executes no chain, calls no link factory,
    initializes no link and leaves the chain cache unchanged; the calls
    served after it get what they would have got without it (for the Switch
    Router: in the world the selector left). *)
Theorem routing_error_is_atomic :
  (forall (opts : SwitchLink.SwitchLinkOptions) (op : Op) (s : State)
          (key : string) (w1 : World) (later : list Op),
      SwitchSpec.selected opts op (world s) = (key, w1) ->
      JSMap.get (cache s) key = None ->
      let s' := snd (SwitchLink.handle opts op s) in
      s' = {| world := w1; cache := cache s; calls := calls s;
              objects := objects s |}
      /\ cache s' = cache s
      /\ calls s' = calls s
      /\ snd (serve (SwitchLink.handle opts) (op :: later) s) =
         snd (serve (SwitchLink.handle opts) later
                {| world := w1; cache := cache s; calls := calls s;
                   objects := objects s |}))
  /\ (forall (opts : EndpointRouterLink.EndpointRouterLinkOptions)
             (runtime : Runtime) (op : Op) (s : State) (later : list Op),
        EndpointRouterLink.not_endpoint (EndpointRouterLink.endpoint_of opts op) = true ->
        let s' := snd (EndpointRouterLink.handle opts runtime op s) in
        s' = s
        /\ cache s' = cache s
        /\ calls s' = calls s
        /\ serve (EndpointRouterLink.handle opts runtime) (op :: later) s =
           (fst (EndpointRouterLink.handle opts runtime op s)
              :: fst (serve (EndpointRouterLink.handle opts runtime) later s),
            snd (serve (EndpointRouterLink.handle opts runtime) later s))).
Proof.
  split.
  - intros opts op s key w1 later Hsel Hmiss s'. subst s'.
    rewrite serve_cons.
    rewrite (switch_handle_miss opts op s key w1 Hsel Hmiss). cbn [snd].
    repeat split.
  - intros opts runtime op s later Herr s'. subst s'.
    rewrite serve_cons.
    rewrite (endpoint_handle_error opts runtime op s Herr). cbn [fst snd].
    repeat split.
Qed.

(** C8.  The Link Normalizer is a total function with no state: a lone
    link becomes the list of that link, a list is returned as it is, in its
    order, in both files.  So two Switch Router configurations whose cases
    normalize to the same lists, and two Endpoint Router configurations
    whose factories answer values that normalize to the same lists, behave
    alike: same streams, same chains executed, same state, on every
    sequence of operations; so do a bare link and the list of that link. *)
Theorem asArray_normalizes :
  (forall link : TRPCLink, SwitchLink.asArray (Single link) = [link])
  /\ (forall links : list TRPCLink, SwitchLink.asArray (Many links) = links)
  /\ (forall value, EndpointRouterLink.asArray value = SwitchLink.asArray value)
  /\ (forall link : TRPCLink,
        SwitchLink.asArray (Single link) = SwitchLink.asArray (Many [link]))
  /\ (forall (opts1 opts2 : SwitchLink.SwitchLinkOptions)
             (link1 link2 : Runtime -> M State Handler)
             (runtime : Runtime) (ops : list Op) (s : State),
        SwitchLink.select opts1 = SwitchLink.select opts2 ->
        SwitchSpec.normalized (SwitchLink.cases opts1) =
        SwitchSpec.normalized (SwitchLink.cases opts2) ->
        SwitchLink.switchLink opts1 = Return link1 ->
        SwitchLink.switchLink opts2 = Return link2 ->
        run_link link1 runtime ops s = run_link link2 runtime ops s)
  /\ (forall (opts1 opts2 : EndpointRouterLink.EndpointRouterLinkOptions)
             (runtime : Runtime) (ops : list Op) (s : State),
        EndpointRouterLink.routerToEndpoint opts1 =
        EndpointRouterLink.routerToEndpoint opts2 ->
        EndpointRouterLink.defaultEndpoint opts1 =
        EndpointRouterLink.defaultEndpoint opts2 ->
        EndpointRouterLink.strict opts1 = EndpointRouterLink.strict opts2 ->
        (forall e w,
           EndpointRouterLink.asArray (fst (EndpointRouterLink.createLink opts1 e w)) =
           EndpointRouterLink.asArray (fst (EndpointRouterLink.createLink opts2 e w))
           /\ snd (EndpointRouterLink.createLink opts1 e w) =
              snd (EndpointRouterLink.createLink opts2 e w)) ->
        run_link (EndpointRouterLink.endpointRouterLink opts1) runtime ops s =
        run_link (EndpointRouterLink.endpointRouterLink opts2) runtime ops s).
Proof.
  split; [reflexivity |]. split; [reflexivity |].
  split; [now intros [link | links] |]. split; [reflexivity |].
  split.
  - intros opts1 opts2 link1 link2 runtime ops s Hsel Hn Hl1 Hl2.
    unfold SwitchLink.switchLink in Hl1, Hl2. cbn zeta in Hl1, Hl2.
    destruct (Nat.eqb (List.length (JSObject.keys (SwitchLink.cases opts1))) 0);
      [discriminate |].
    destruct (Nat.eqb (List.length (JSObject.keys (SwitchLink.cases opts2))) 0);
      [discriminate |].
    injection Hl1 as <-. injection Hl2 as <-.
    unfold run_link, bind at 1 2. symmetry. unfold bind at 1 2. symmetry.
    rewrite (switch_initialize_normalized opts1 opts2 runtime s Hn).
    destruct (SwitchLink.initialize opts2
                (JSObject.keys (SwitchLink.cases opts2)) runtime s) as [u s1].
    unfold ret. apply serve_ext.
    intros op s'. unfold SwitchLink.handle. now rewrite Hsel.
  - intros opts1 opts2 runtime ops s Hmap Hdef Hstrict Hfac.
    unfold run_link, EndpointRouterLink.endpointRouterLink, bind, write_cache, ret.
    apply serve_ext. now apply endpoint_handle_normalized.
Qed.

End RouterClaims.

(** * The claims at concrete inputs *)

Section Concrete.
#[local] Existing Instance Demo.trpc.
Import Demo.

(** C1 as the specification states it fails: with the one case "known"
    and a selector answering "unknown" (the test "should emit error if
    selector returns unknown key"), the stream is the error alone.  No
    completion notification follows it. *)
Lemma switch_unknown_key_stream_has_no_complete :
  let s := SwitchSpec.serving unknown_selector tt [] (fresh 0) in
  let stream :=
    fst (SwitchLink.handle unknown_selector (createMockOp "test.procedure" false) s) in
  stream =
    [Error (TRPCClientError_from
              (mkError ("switchLink: selector returned unknown key "
                        ++ Str.quoted "unknown" ++ ". Valid keys are: known")))]
  /\ completions stream = 0
  /\ List.length stream = 1.
Proof. repeat split. Qed.

(** C1 (amended) applied to that router, after it has served one call. *)
Lemma switch_unknown_key_error_witness :
  let op := createMockOp "test.procedure" false in
  let s := SwitchSpec.serving unknown_selector tt [op] (fresh 0) in
  JSObject.wf (SwitchLink.cases unknown_selector)
  /\ SwitchLink.cases unknown_selector <> []
  /\ SwitchSpec.selected unknown_selector op (world s) = ("unknown", 3)
  /\ JSObject.get (SwitchLink.cases unknown_selector) "unknown" = None
  /\ SwitchLink.handle unknown_selector op s =
     ([Error (TRPCClientError_from
                (mkError ("switchLink: selector returned unknown key "
                          ++ Str.quoted "unknown" ++ ". Valid keys are: known")))],
      {| world := 3; cache := [("known", [("knownLink", 0)])];
         calls := [InitCall "knownLink"];
         objects := [] |}).
Proof.
  intros op s.
  assert (Hwf : JSObject.wf (SwitchLink.cases unknown_selector)) by solve_wf.
  assert (Hne : SwitchLink.cases unknown_selector <> []) by discriminate.
  split; [exact Hwf |]. split; [exact Hne |].
  split; [reflexivity |]. split; [reflexivity |].
  exact (proj1 (switch_unknown_key_error (H := trpc) unknown_selector tt [op] (fresh 0) op
                  "unknown" 3 Hwf Hne eq_refl eq_refl)).
Defined.

(** C4 applied to the router with a bare link and an array of links. *)
Lemma switch_initialization_witness :
  let link := fun runtime =>
    SwitchLink.initialize by_role (JSObject.keys (SwitchLink.cases by_role)) runtime ;;
    ret (SwitchLink.handle by_role) in
  let s1 := snd (link tt (fresh 0)) in
  JSObject.wf (SwitchLink.cases by_role)
  /\ SwitchLink.switchLink by_role = Return link
  /\ cache s1 = [("admin", [("adminLink", 0)]);
                 ("user", [("loggerLink", 1); ("userLink", 2)])]
  /\ calls s1 = [InitCall "adminLink"; InitCall "loggerLink"; InitCall "userLink"].
Proof.
  intros link s1.
  assert (Hwf : JSObject.wf (SwitchLink.cases by_role)) by solve_wf.
  pose proof (switch_initialization_materializes_every_case (H := trpc) by_role tt (fresh 0)
                link Hwf eq_refl) as (Hcache & _ & _ & Hcalls & _).
  split; [exact Hwf |]. split; [reflexivity |].
  split; [exact (f_equal fst Hcache) | exact Hcalls].
Defined.



(** C3 on the test "should cache initialized links per unique endpoint":
    "users" and "billing" share "/api/shared".  One factory call, one
    initialization, and both chains run on the link initialized at
    count 1. *)
Example endpoint_shared_chain :
  let ops := [createMockOp "users.one" false; createMockOp "billing.sub" false] in
  let s := EndpointSpec.serving shared tt ops (fresh 0) in
  factory_calls (Url "/api/shared") (calls s) = 1
  /\ cache s = [("/api/shared", [("link to /api/shared", 1)])]
  /\ map snd (chain_calls (calls s)) =
     [[("link to /api/shared", 1)]; [("link to /api/shared", 1)]].
Proof. repeat split. Qed.


(** C5 applied to an admin call on the Switch Router and to a mapped
    router name on the Endpoint Router. *)
Lemma resolved_chain_is_forwarded_witness :
  let op := createMockOp "admin.stats" true in
  let s := SwitchSpec.serving by_role tt [] (fresh 0) in
  let op' := createMockOp "users.get" false in
  (JSObject.wf (SwitchLink.cases by_role)
   /\ SwitchSpec.selected by_role op (world s) = ("admin", 4)
   /\ In "admin" (JSObject.keys (SwitchLink.cases by_role))
   /\ SwitchLink.handle by_role op s =
      ([Next "adminLink"; Complete],
       {| world := 5; cache := cache s;
          calls := (calls s ++ [ChainCall op [("adminLink", 0)]])%list;
          objects := objects s |}))
  /\ (EndpointRouterLink.endpoint_of (users_only None None) op'
        = Some (Url "/api/users")
      /\ EndpointRouterLink.not_endpoint (Some (Url "/api/users")) = false
      /\ fst (EndpointRouterLink.handle (users_only None None) tt op' (fresh 0)) =
         [Next "link to /api/users"; Complete]).
Proof.
  intros op s op'.
  assert (Hwf : JSObject.wf (SwitchLink.cases by_role)) by solve_wf.
  assert (Hin : In "admin" (JSObject.keys (SwitchLink.cases by_role)))
    by (now left).
  pose proof (resolved_chain_is_forwarded (H := trpc)) as [Hswitch Hendpoint].
  split.
  - split; [exact Hwf |]. split; [reflexivity |]. split; [exact Hin |].
    pose proof (Hswitch by_role tt [] (fresh 0) op "admin" 4 Hwf eq_refl Hin)
      as (links & Hget & Hrun).
    injection Hget as <-. exact Hrun.
  - split; [reflexivity |]. split; [reflexivity |].
    pose proof (Hendpoint (users_only None None) tt op' (fresh 0)
                  (Url "/api/users") eq_refl eq_refl)
      as (links & w1 & Hget & _ & Hrun & _).
    injection Hget as <-. exact Hrun.
Defined.

(** C10 applied to the unknown key and to the unmapped router name. *)
Lemma routing_error_is_atomic_witness :
  let op := createMockOp "test.procedure" false in
  let s := SwitchSpec.serving unknown_selector tt [] (fresh 0) in
  let op' := createMockOp "unknown.procedure" false in
  let s' := EndpointSpec.serving (users_only None None) tt
              [createMockOp "users.get" false] (fresh 0) in
  (SwitchSpec.selected unknown_selector op (world s) = ("unknown", 2)
   /\ JSMap.get (cache s) "unknown" = None
   /\ snd (SwitchLink.handle unknown_selector op s) =
      {| world := 2; cache := cache s; calls := calls s;
         objects := objects s |})
  /\ (EndpointRouterLink.not_endpoint
        (EndpointRouterLink.endpoint_of (users_only None None) op') = true
      /\ snd (EndpointRouterLink.handle (users_only None None) tt op' s') = s').
Proof.
  intros op s op' s'.
  pose proof (routing_error_is_atomic (H := trpc)) as [Hswitch Hendpoint].
  split.
  - split; [reflexivity |]. split; [reflexivity |].
    exact (proj1 (Hswitch unknown_selector op s "unknown" 2 [] eq_refl eq_refl)).
  - split; [reflexivity |].
    exact (proj1 (Hendpoint (users_only None None) tt op' s' [] eq_refl)).
Defined.

(** C8 applied to a bare link against the array of that link, as a case
    of the Switch Router and as the answer of the link factory. *)
Lemma asArray_normalizes_witness :
  let ops := [createMockOp "admin.stats" true; createMockOp "users.get" false] in
  (SwitchSpec.normalized (SwitchLink.cases by_role) =
   SwitchSpec.normalized (SwitchLink.cases by_role_arrays)
   /\ run_link (fun runtime =>
                  SwitchLink.initialize by_role
                    (JSObject.keys (SwitchLink.cases by_role)) runtime ;;
                  ret (SwitchLink.handle by_role)) tt ops (fresh 0) =
      run_link (fun runtime =>
                  SwitchLink.initialize by_role_arrays
                    (JSObject.keys (SwitchLink.cases by_role_arrays)) runtime ;;
                  ret (SwitchLink.handle by_role_arrays)) tt ops (fresh 0))
  /\ run_link (EndpointRouterLink.endpointRouterLink (users_only None None))
        tt ops (fresh 0) =
     run_link (EndpointRouterLink.endpointRouterLink (users_only_array None None))
        tt ops (fresh 0).
Proof.
  intros ops.
  pose proof (asArray_normalizes (H := trpc)) as (_ & _ & _ & _ & Hswitch & Hendpoint).
  split.
  - split; [reflexivity |].
    exact (Hswitch by_role by_role_arrays _ _ tt ops (fresh 0)
             eq_refl eq_refl eq_refl eq_refl).
  - apply Hendpoint; try reflexivity.
    intros e w. split; reflexivity.
Defined.

(** C9 on the configuration of the test "should work the same as
    endpointRouterLink". *)
Example typed_router_demo :
  fst (run_link (EndpointRouterLink.typedEndpointRouterLink typed_users) tt
         [createMockOp "users.get" false; createMockOp "other.get" false] (fresh 0))
  = [[Next "link to /api/users"; Complete]; [Next "link to /api/default"; Complete]].
Proof. reflexivity. Qed.

End Concrete.

(** * More of the code *)

Section EndpointCoverage.
Context `{Trpc}.
Import EndpointRouterLink EndpointSpec.

Lemma init_all_length (runtime : Runtime) :
  forall (links : list TRPCLink) (w : World),
    List.length (fst (init_all runtime links w)) = List.length links.
Proof.
  induction links as [|link rest IH]; intros w; cbn; auto.
  destruct (init_link link runtime w) as [o w1].
  specialize (IH w1). destruct (init_all runtime rest w1) as [os w2].
  cbn in *. now rewrite IH.
Qed.

Lemma getInitializedLinks_ext (opts1 opts2 : EndpointRouterLinkOptions)
    (runtime : Runtime) (e : Endpoint) (s : State) :
  (forall w, createLink opts1 e w = createLink opts2 e w) ->
  getInitializedLinks opts1 runtime e s = getInitializedLinks opts2 runtime e s.
Proof.
  intros Hfac. destruct (cached s e) as [l0|] eqn:Eget.
  - now rewrite !(getInitializedLinks_hit _ runtime e s l0 Eget).
  - rewrite !(getInitializedLinks_miss _ runtime e s Eget). now rewrite Hfac.
Qed.

(** [map.set] of a key the [Map] does not have: a new entry, last. *)
Lemma Map_set_fresh (s : State) (e : Endpoint) (links : list OperationLink) :
  cached s e = None ->
  match e with
  | Url url =>
      cache (snd (Map_set e links s)) = (cache s ++ [(url, links)])%list
      /\ objects (snd (Map_set e links s)) = objects s
  | Inherited member =>
      objects (snd (Map_set e links s)) = (objects s ++ [(member, links)])%list
      /\ cache (snd (Map_set e links s)) = cache s
  end.
Proof.
  destruct e as [url | member]; cbn; intros Hmiss;
    (split; [now apply JSMap_set_fresh | reflexivity]).
Qed.

(** The state a routed call leaves when its endpoint was not cached. *)
Lemma endpoint_miss_state (opts : EndpointRouterLinkOptions)
    (runtime : Runtime) (op : Op) (s : State) (e : Endpoint) :
  endpoint_of opts op = Some e ->
  not_endpoint (Some e) = false ->
  cached s e = None ->
  let made := createLink opts e (world s) in
  let links := fst (init_all runtime (asArray (fst made)) (snd made)) in
  let s' := snd (handle opts runtime op s) in
  match e with
  | Url url =>
      cache s' = (cache s ++ [(url, links)])%list /\ objects s' = objects s
  | Inherited member =>
      objects s' = (objects s ++ [(member, links)])%list /\ cache s' = cache s
  end.
Proof.
  intros He Ht Hmiss made links s'. subst s'.
  rewrite (endpoint_handle_route opts runtime op s e He Ht).
  rewrite (getInitializedLinks_miss opts runtime e s Hmiss).
  cbn [fst snd cache objects]. fold made. fold links.
  set (mid := {| world := _; cache := cache s; calls := _; objects := objects s |}).
  assert (Hmid : cached mid e = None) by (destruct e; exact Hmiss).
  exact (Map_set_fresh mid e links Hmid).
Qed.

(** The calls of one routed operation, in order (lines 236-247 and
    270-273).  If the endpoint is not cached yet, the handler calls the
    factory once with the endpoint, initializes each link of the answer
    once, in order, stores the list under the endpoint and executes the
    chain on it.  If it is cached, the handler only executes the chain on
    the cached list.  After either, another operation for the same endpoint
    only executes the chain, on the same list. *)
Theorem endpoint_call_sequence
    (opts : EndpointRouterLinkOptions) (runtime : Runtime)
    (op op' : Op) (s : State) (e : Endpoint) :
  endpoint_of opts op = Some e ->
  endpoint_of opts op' = Some e ->
  not_endpoint (Some e) = false ->
  let s1 := snd (handle opts runtime op s) in
  let s2 := snd (handle opts runtime op' s1) in
  exists links,
    cached s1 e = Some links
    /\ match cached s e with
       | Some before =>
           links = before
           /\ cache s1 = cache s
           /\ objects s1 = objects s
           /\ calls s1 = (calls s ++ [ChainCall op links])%list
       | None =>
           let made := createLink opts e (world s) in
           links = fst (init_all runtime (asArray (fst made)) (snd made))
           /\ List.length links = List.length (asArray (fst made))
           /\ match e with
              | Url url =>
                  cache s1 = (cache s ++ [(url, links)])%list
                  /\ objects s1 = objects s
              | Inherited member =>
                  objects s1 = (objects s ++ [(member, links)])%list
                  /\ cache s1 = cache s
              end
           /\ calls s1 =
              (calls s ++ FactoryCall e :: map InitCall (asArray (fst made))
                       ++ [ChainCall op links])%list
       end
    /\ cache s2 = cache s1
    /\ objects s2 = objects s1
    /\ calls s2 = (calls s1 ++ [ChainCall op' links])%list.
Proof.
  intros He He' Ht s1 s2.
  assert (Hnext : forall links, cached s1 e = Some links ->
            cache s2 = cache s1 /\ objects s2 = objects s1
            /\ calls s2 = (calls s1 ++ [ChainCall op' links])%list).
  { intros links Hget.
    pose proof (endpoint_route_state opts runtime op' s1 e He' Ht) as R.
    cbn zeta in R. fold s2 in R. rewrite Hget in R.
    destruct R as (Rc & Ro & Rcalls & _). auto. }
  pose proof (endpoint_route_state opts runtime op s e He Ht) as R.
  cbn zeta in R. fold s1 in R.
  pose proof (endpoint_miss_state opts runtime op s e He Ht) as Hmiss.
  cbn zeta in Hmiss. fold s1 in Hmiss.
  destruct (cached s e) as [before|] eqn:Eget.
  - destruct R as (Rc & Ro & Rcalls & _).
    exists before.
    assert (Hget : cached s1 e = Some before)
      by (unfold cached in *; destruct e; rewrite ?Rc, ?Ro; exact Eget).
    split; [exact Hget |]. split; [auto |]. now apply Hnext.
  - destruct R as (Rget & _ & Rcalls & _).
    eexists. split; [exact Rget |].
    split.
    + split; [reflexivity |]. split; [apply init_all_length |].
      split; [exact (Hmiss eq_refl) | exact Rcalls].
    + now apply Hnext.
Qed.

Lemma all_factory_calls_app (cs cs' : list Call) :
  all_factory_calls (cs ++ cs')%list = all_factory_calls cs + all_factory_calls cs'.
Proof.
  induction cs as [|[e'|l|o ls] cs IH]; cbn; auto.
Qed.

Lemma all_factory_calls_InitCall (links : list TRPCLink) :
  all_factory_calls (map InitCall links) = 0.
Proof. induction links; cbn; congruence. Qed.

Lemma cached_links_app (m m' : JSMap.t (list OperationLink)) :
  cached_links (m ++ m')%list = cached_links m + cached_links m'.
Proof.
  unfold cached_links. now rewrite map_app, concat_app, length_app.
Qed.

Lemma cached_links_one (key : string) (links : list OperationLink) :
  cached_links [(key, links)] = List.length links.
Proof. unfold cached_links. cbn. now rewrite app_nil_r. Qed.

(** One call keeps the balance between the probe and the cache. *)
Lemma endpoint_handle_balance (opts : EndpointRouterLinkOptions)
    (runtime : Runtime) (op : Op) (s : State) :
  let s' := snd (handle opts runtime op s) in
  List.length (init_calls (calls s'))
  + (cached_links (cache s) + cached_links (objects s)) =
  List.length (init_calls (calls s))
  + (cached_links (cache s') + cached_links (objects s'))
  /\ all_factory_calls (calls s')
     + (List.length (cache s) + List.length (objects s)) =
     all_factory_calls (calls s)
     + (List.length (cache s') + List.length (objects s')).
Proof.
  intros s'.
  destruct (endpoint_cases opts op) as [Herr | (e & He & Ht)].
  - subst s'. rewrite endpoint_handle_error by exact Herr. cbn [snd]. split; lia.
  - pose proof (endpoint_route_state opts runtime op s e He Ht) as R.
    cbn zeta in R. fold s' in R.
    pose proof (endpoint_miss_state opts runtime op s e He Ht) as Hmiss.
    cbn zeta in Hmiss. fold s' in Hmiss.
    destruct (cached s e) as [before|] eqn:Eget.
    + destruct R as (Rc & Ro & Rcalls & _).
      rewrite Rc, Ro, Rcalls, init_calls_app, all_factory_calls_app, length_app.
      cbn. split; lia.
    + destruct R as (_ & _ & Rcalls & _). specialize (Hmiss eq_refl).
      set (made := createLink opts e (world s)) in *.
      set (links := fst (init_all runtime (asArray (fst made)) (snd made))) in *.
      assert (Hlen : List.length links = List.length (asArray (fst made)))
        by apply init_all_length.
      rewrite Rcalls, init_calls_app, all_factory_calls_app.
      cbn [init_calls all_factory_calls].
      rewrite init_calls_app, all_factory_calls_app.
      rewrite init_calls_InitCall, all_factory_calls_InitCall.
      cbn [init_calls all_factory_calls]. rewrite !length_app. cbn [List.length].
      destruct e as [url | member]; destruct Hmiss as [Ha Hb];
        rewrite Ha, Hb, cached_links_app, length_app, cached_links_one;
        cbn [List.length]; split; lia.
Qed.

(** Over the life of an instance, the links it has initialized are the
    links its cache holds, and the factory calls it has made are the
    entries of its cache: nothing is built and dropped, nothing is built
    twice, and an operation that fails to resolve builds nothing. *)
Theorem endpoint_builds_what_it_caches
    (opts : EndpointRouterLinkOptions) (runtime : Runtime)
    (history : list Op) (w : World) :
  let s := serving opts runtime history (fresh w) in
  List.length (init_calls (calls s)) =
    cached_links (cache s) + cached_links (objects s)
  /\ all_factory_calls (calls s) = List.length (cache s) + List.length (objects s)
  /\ List.length (chain_calls (calls s)) <= List.length history.
Proof.
  intros s. subst s. rewrite endpoint_serving_unfold.
  cbn [fresh world cache calls objects].
  set (s0 := {| world := w; cache := JSMap.empty; calls := [];
                objects := JSMap.empty |}).
  assert (Hinv : forall ops s,
            let s' := snd (serve (handle opts runtime) ops s) in
            List.length (init_calls (calls s'))
            + (cached_links (cache s) + cached_links (objects s)) =
            List.length (init_calls (calls s))
            + (cached_links (cache s') + cached_links (objects s'))
            /\ all_factory_calls (calls s')
               + (List.length (cache s) + List.length (objects s)) =
               all_factory_calls (calls s)
               + (List.length (cache s') + List.length (objects s'))
            /\ List.length (chain_calls (calls s')) <=
               List.length (chain_calls (calls s)) + List.length ops).
  { induction ops as [|op ops IH]; intros s s'; subst s'.
    - cbn. repeat split; lia.
    - rewrite serve_cons. cbn [snd].
      destruct (endpoint_handle_balance opts runtime op s) as [B1 B2].
      destruct (endpoint_handle_step opts runtime op s)
        as (_ & _ & _ & new & C & Hnew & _).
      set (s1 := snd (handle opts runtime op s)) in *.
      destruct (IH s1) as (I1 & I2 & I3).
      rewrite C, length_app in I3. cbn [List.length].
      repeat split; lia. }
  destruct (Hinv history s0) as (I1 & I2 & I3).
  cbn in I1, I2, I3. repeat split; lia.
Qed.

End EndpointCoverage.

Lemma includes_join (sep : string) (l : list string) (k : string) :
  In k l -> Str.includes (Str.join sep l) k.
Proof.
  unfold Str.join.
  induction l as [|x l IH]; cbn; [tauto |].
  intros [-> | Hin].
  - destruct l as [|y l].
    + exists EmptyString, EmptyString. cbn.
      clear. induction k; cbn; congruence.
    + exists EmptyString, (sep ++ String.concat sep (y :: l)). reflexivity.
  - destruct l as [|y l]; [destruct Hin |].
    apply includes_in_suffix, includes_in_suffix. now apply IH.
Qed.

Lemma before_first_append (sep : ascii) (name rest : string) :
  Str.has_char sep name = false ->
  EndpointSpec.before_first sep (name ++ String sep rest) = name.
Proof.
  induction name as [|c name IH]; cbn.
  - intros _. now rewrite Ascii.eqb_refl.
  - destruct (Ascii.eqb c sep); cbn; [discriminate |].
    intros Hn. now rewrite IH.
Qed.

Lemma infer_First_before_first (K : string) :
  Types.RouterName K = EndpointSpec.before_first "." K.
Proof.
  unfold Types.RouterName.
  assert (E : forall K,
             match Types.infer_First K with
             | Some First => First = EndpointSpec.before_first "." K
             | None => K = EndpointSpec.before_first "." K
             end).
  { clear K. induction K as [|c K IH]; cbn; auto.
    destruct (Ascii.eqb c "."); auto.
    destruct (Types.infer_First K); cbn; congruence. }
  specialize (E K). now destruct (Types.infer_First K).
Qed.

Section ObjectFacts.
Context {V : Type}.

Lemma JSObject_get_set_same (o : JSObject.t V) (k : string) (v : V) :
  JSObject.get (JSObject.set o k v) k = Some v.
Proof.
  induction o as [|[k' v'] o IH]; cbn.
  - now rewrite String.eqb_refl.
  - destruct (String.eqb k k') eqn:E; cbn; rewrite E; auto.
Qed.

Lemma JSObject_get_set_other (o : JSObject.t V) (k k' : string) (v : V) :
  k <> k' -> JSObject.get (JSObject.set o k v) k' = JSObject.get o k'.
Proof.
  intros Hne.
  induction o as [|[k0 v0] o IH]; cbn.
  - destruct (String.eqb k' k) eqn:E; auto.
    apply String.eqb_eq in E. congruence.
  - destruct (String.eqb k k0) eqn:E; cbn.
    + apply String.eqb_eq in E. subst k0.
      destruct (String.eqb k' k) eqn:E'; auto.
      apply String.eqb_eq in E'. congruence.
    + now rewrite IH.
Qed.

Lemma JSObject_get_not_key (o : JSObject.t V) (k : string) :
  ~ In k (JSObject.keys o) -> JSObject.get o k = None.
Proof.
  induction o as [|[k' v'] o IH]; cbn; auto.
  intros Hn. destruct (String.eqb k k') eqn:E.
  - apply String.eqb_eq in E. subst. tauto.
  - apply IH. tauto.
Qed.

(** A property read of [{ ...o, ...extra }]: the one of [extra], else
    the one of [o]. *)
Lemma JSObject_spread_get (extra o : JSObject.t V) (k : string) :
  JSObject.wf extra ->
  JSObject.get (JSObject.spread o extra) k =
  match JSObject.get extra k with
  | Some v => Some v
  | None => JSObject.get o k
  end.
Proof.
  unfold JSObject.wf, JSObject.spread. revert o.
  induction extra as [|[k1 v1] extra IH]; intros o Hwf; cbn; auto.
  cbn in Hwf. inversion Hwf as [|? ? Hnot Hrest]; subst.
  rewrite (IH _ Hrest).
  destruct (String.eqb k k1) eqn:E.
  - apply String.eqb_eq in E. subst k1.
    rewrite (JSObject_get_not_key _ _ Hnot). apply JSObject_get_set_same.
  - destruct (JSObject.get extra k); [reflexivity |].
    apply JSObject_get_set_other. intros ->. now rewrite String.eqb_refl in E.
Qed.

End ObjectFacts.

Section EndpointConfiguration.
Context `{Trpc}.
Import EndpointRouterLink EndpointSpec.

(** [strict] changes the text of the routing error and nothing else
    (lines 259-264).  Two configurations that differ in [strict] alone fail
    on the same operations, leave the same state after every call, and on
    an operation whose endpoint resolves behave alike; in particular
    [strict: true] never rejects an operation served by the default. *)
Theorem strict_only_changes_the_message
    (opts : EndpointRouterLinkOptions) (a b : option bool)
    (runtime : Runtime) (op : Op) (s : State) :
  endpoint_of (with_strict opts a) op = endpoint_of (with_strict opts b) op
  /\ snd (handle (with_strict opts a) runtime op s) =
     snd (handle (with_strict opts b) runtime op s)
  /\ List.length (fst (handle (with_strict opts a) runtime op s)) =
     List.length (fst (handle (with_strict opts b) runtime op s))
  /\ (not_endpoint (endpoint_of opts op) = false ->
      handle (with_strict opts a) runtime op s =
      handle (with_strict opts b) runtime op s).
Proof.
  assert (Hend : forall c, endpoint_of (with_strict opts c) op = endpoint_of opts op)
    by reflexivity.
  assert (Hroute : not_endpoint (endpoint_of opts op) = false ->
            handle (with_strict opts a) runtime op s =
            handle (with_strict opts b) runtime op s).
  { intros Hr.
    destruct (endpoint_cases opts op) as [Herr | (e & He & Ht)]; [congruence |].
    rewrite (endpoint_handle_route (with_strict opts a) runtime op s e He Ht).
    rewrite (endpoint_handle_route (with_strict opts b) runtime op s e He Ht).
    now rewrite (getInitializedLinks_ext (with_strict opts a) (with_strict opts b)
                   runtime e s (fun w => eq_refl)). }
  split; [reflexivity |].
  destruct (not_endpoint (endpoint_of opts op)) eqn:E.
  - rewrite !endpoint_handle_error by (rewrite Hend; exact E).
    repeat split. discriminate.
  - rewrite (Hroute eq_refl). repeat split.
Qed.

(** [linkOptions] reaches the default transport only (lines 222-230).
    With a custom [linkFactory], configurations that differ in
    [linkOptions] alone behave alike.  Without one, the chain of an
    endpoint is the one link [httpBatchLink] makes from the object
    [{ url: endpoint, ...linkOptions }], with [{}] for absent options: every
    option given is passed on as it is, and [url] is the endpoint unless
    the options have a [url] of their own, which then replaces it. *)
Theorem linkOptions_reach_the_default_transport_only
    (opts : EndpointRouterLinkOptions)
    (o1 o2 : option (JSObject.t OptionValue))
    (runtime : Runtime) (op : Op) (s : State) :
  match linkFactory opts with
  | Some factory =>
      handle (with_linkOptions opts o1) runtime op s =
      handle (with_linkOptions opts o2) runtime op s
  | None =>
      forall e, endpoint_of opts op = Some e ->
                not_endpoint (Some e) = false ->
                cached s e = None ->
                JSObject.wf (linkOptions_or_empty opts) ->
        let given := linkOptions_or_empty opts in
        let options := JSObject.spread [("url", option_of_endpoint e)] given in
        let transport := httpBatchLink options in
        let s' := snd (handle opts runtime op s) in
        calls s' =
          (calls s ++ [FactoryCall e; InitCall transport;
                       ChainCall op [fst (init_link transport runtime (world s))]])%list
        /\ cached s' e = Some [fst (init_link transport runtime (world s))]
        /\ JSObject.get options "url" =
           Some (match JSObject.get given "url" with
                 | Some own => own
                 | None => option_of_endpoint e
                 end)
        /\ (forall k, k <> "url" ->
                      JSObject.get options k = JSObject.get given k)
  end.
Proof.
  destruct (linkFactory opts) as [factory|] eqn:Efac.
  - assert (Hc : forall c e w, createLink (with_linkOptions opts c) e w = factory e w).
    { intros c e w. unfold createLink. cbn [linkFactory with_linkOptions].
      now rewrite Efac. }
    destruct (endpoint_cases opts op) as [Herr | (e & He & Ht)].
    + now rewrite !endpoint_handle_error by exact Herr.
    + rewrite (endpoint_handle_route (with_linkOptions opts o1) runtime op s e He Ht).
      rewrite (endpoint_handle_route (with_linkOptions opts o2) runtime op s e He Ht).
      rewrite (getInitializedLinks_ext (with_linkOptions opts o1)
                 (with_linkOptions opts o2) runtime e s); auto.
      intros w. now rewrite !Hc.
  - intros e He Ht Hmiss Hwf given options transport s'.
    split; [| split; [| split]].
    + subst s'.
      rewrite (endpoint_handle_route opts runtime op s e He Ht).
      rewrite (getInitializedLinks_miss opts runtime e s Hmiss).
      unfold createLink. rewrite Efac. fold given. fold options. fold transport.
      cbn [fst snd asArray init_all map world cache calls objects].
      destruct (init_link transport runtime (world s)) as [o w1].
      destruct e; cbn [fst snd Map_set calls]; rewrite <- app_assoc; reflexivity.
    + pose proof (endpoint_route_state opts runtime op s e He Ht) as R.
      cbn zeta in R. fold s' in R. rewrite Hmiss in R.
      destruct R as (Rget & _). rewrite Rget.
      unfold createLink. rewrite Efac. fold given. fold options. fold transport.
      cbn [fst snd asArray init_all].
      now destruct (init_link transport runtime (world s)) as [o w1].
    + subst options given. rewrite (JSObject_spread_get _ _ _ Hwf).
      now destruct (JSObject.get (linkOptions_or_empty opts) "url").
    + intros k Hk. subst options given.
      rewrite (JSObject_spread_get _ _ _ Hwf).
      destruct (JSObject.get (linkOptions_or_empty opts) k); [reflexivity |].
      cbn. destruct (String.eqb k "url") eqn:E; [| reflexivity].
      apply String.eqb_eq in E. contradiction.
Qed.

(** An entry of the mapping always wins over [defaultEndpoint]
    (line 254: [??] falls back on [undefined] only).  So does an entry that
    is the empty string: the call ends in the routing error, whatever the
    default, and builds nothing. *)
Theorem mapping_entry_wins_over_default
    (opts : EndpointRouterLinkOptions) (default : option string)
    (runtime : Runtime) (op : Op) (s : State) (entry : string) :
  JSObject.get (routerToEndpoint opts) (routerName op) = Some entry ->
  endpoint_of (with_defaultEndpoint opts default) op = Some (Url entry)
  /\ (entry = EmptyString ->
      handle (with_defaultEndpoint opts default) runtime op s =
      ([Error (TRPCClientError_from
                 (mkError (errorMessage (with_defaultEndpoint opts default)
                             (routerName op))))], s)).
Proof.
  intros Hget.
  assert (Hend : endpoint_of (with_defaultEndpoint opts default) op
                 = Some (Url entry)).
  { unfold endpoint_of, mapped, JSObject.read.
    cbn [routerToEndpoint defaultEndpoint with_defaultEndpoint].
    now rewrite Hget. }
  split; [exact Hend |].
  intros ->. apply endpoint_handle_error. now rewrite Hend.
Qed.

(** Routing goes by the first segment of the path alone.  A path made
    of a name without '.', or of such a name, a '.' and anything, has that
    name as router name, so all procedures of one router resolve to one
    endpoint: what the bracket read of the mapping finds under that name
    (its own entry, else the member of [Object.prototype] of that name if
    there is one), else [defaultEndpoint]. *)
Theorem router_name_of_a_procedure
    (opts : EndpointRouterLinkOptions) (op : Op) (name : string) :
  Str.has_char "." name = false ->
  (op_path op = name \/ exists rest, op_path op = name ++ "." ++ rest) ->
  routerName op = name
  /\ endpoint_of opts op =
     match JSObject.get (routerToEndpoint opts) name with
     | Some url => Some (Url url)
     | None =>
         if JSObject.inherits name then Some (Inherited name)
         else option_map Url (defaultEndpoint opts)
     end.
Proof.
  intros Hname Hpath.
  assert (E : routerName op = name).
  { unfold routerName.
    destruct (split_head "." (op_path op)) as [tail ->].
    destruct Hpath as [-> | [rest ->]].
    - now apply before_first_whole.
    - now apply before_first_append. }
  split; [exact E |].
  unfold endpoint_of, mapped, JSObject.read. rewrite E.
  destruct (JSObject.get (routerToEndpoint opts) name); [reflexivity |].
  now destruct (JSObject.inherits name).
Qed.

(** The type [RouterNames] and the router agree: the name the type
    computes from a procedure path (lines 38-45 of [types.ts]) is the name
    the router computes from that path at run time (line 252), so the
    router name of every procedure of the router is one of its
    [RouterNames]. *)
Theorem RouterNames_agree_with_routerName
    (procedures : list string) (op : Op) :
  Types.RouterName (op_path op) = routerName op
  /\ (In (op_path op) procedures ->
      In (routerName op) (Types.RouterNames procedures)).
Proof.
  assert (E : Types.RouterName (op_path op) = routerName op).
  { rewrite infer_First_before_first. unfold routerName.
    now destruct (split_head "." (op_path op)) as [tail ->]. }
  split; [exact E |].
  intros Hin. rewrite <- E. unfold Types.RouterNames. now apply in_map.
Qed.

(** What the tests read in the message of the routing error (lines
    196-252 of the test file), for every configuration and router name: the
    non-strict message names the router; the strict one names it, says that
    no default is provided, and lists every key of the mapping, or "(none)"
    for the empty mapping. *)
Theorem endpoint_error_message_contents
    (opts : EndpointRouterLinkOptions) (name : string) :
  let msg := errorMessage opts name in
  if strict_flag opts then
    Str.includes msg ("no endpoint mapping for router " ++ Str.quoted name)
    /\ Str.includes msg "no defaultEndpoint provided"
    /\ Str.includes msg "Available mappings:"
    /\ (forall key, In key (JSObject.keys (routerToEndpoint opts)) ->
                    Str.includes msg key)
    /\ (routerToEndpoint opts = [] -> Str.includes msg "Available mappings: (none)")
  else
    Str.includes msg ("no endpoint for router " ++ Str.quoted name)
    /\ Str.includes msg "routerToEndpoint"
    /\ Str.includes msg "defaultEndpoint".
Proof.
  intros msg. subst msg. unfold errorMessage.
  destruct (strict_flag opts).
  - set (joined := Str.join ", " (JSObject.keys (routerToEndpoint opts))).
    repeat split.
    + exists "endpointRouterLink: ",
        (" " ++ "and no defaultEndpoint provided. " ++ "Available mappings: "
         ++ (if Str.truthy joined then joined else "(none)")).
      now rewrite !append_assoc.
    + exists ("endpointRouterLink: no endpoint mapping for router "
              ++ Str.quoted name ++ " and "),
        (". " ++ "Available mappings: "
         ++ (if Str.truthy joined then joined else "(none)")).
      now rewrite !append_assoc.
    + exists ("endpointRouterLink: no endpoint mapping for router "
              ++ Str.quoted name ++ " and no defaultEndpoint provided. "),
        (" " ++ (if Str.truthy joined then joined else "(none)")).
      now rewrite !append_assoc.
    + intros key Hin.
      do 5 apply includes_in_suffix.
      assert (Hj : Str.includes joined key) by now apply includes_join.
      destruct (Str.truthy joined) eqn:Et; [exact Hj |].
      destruct joined; [| discriminate].
      destruct Hj as (x & y & Hxy).
      destruct x; destruct key; cbn in Hxy; try discriminate.
      now exists EmptyString, "(none)".
    + intros Hempty. subst joined. rewrite Hempty. cbn [JSObject.keys map Str.join String.concat Str.truthy].
      do 4 apply includes_in_suffix. exists EmptyString, EmptyString. reflexivity.
  - repeat split.
    + exists "endpointRouterLink: ",
        (". " ++ "Either add it to routerToEndpoint or provide a defaultEndpoint.").
      now rewrite !append_assoc.
    + exists ("endpointRouterLink: no endpoint for router " ++ Str.quoted name
              ++ ". Either add it to "), " or provide a defaultEndpoint.".
      now rewrite !append_assoc.
    + exists ("endpointRouterLink: no endpoint for router " ++ Str.quoted name
              ++ ". Either add it to routerToEndpoint or provide a "), ".".
      now rewrite !append_assoc.
Qed.

End EndpointConfiguration.

Section SwitchCoverage.
Context `{Trpc}.
Import SwitchLink SwitchSpec.

(** Initialization belongs to the instance, not to the configuration
    (lines 56-65: the [Map] is made inside the function that takes the
    runtime).  Each time the link [switchLink] returned is handed a
    runtime, every link of every case is initialized again, with that
    runtime; nothing is kept from an earlier time. *)
Theorem switch_initialization_is_per_instance
    (opts : SwitchLinkOptions) (link : Runtime -> M State Handler)
    (runtime1 runtime2 : Runtime) (s : State) :
  JSObject.wf (cases opts) ->
  switchLink opts = Return link ->
  let s1 := snd (link runtime1 s) in
  let s2 := snd (link runtime2 s1) in
  calls s2 =
    (calls s ++ map InitCall (all_links (cases opts))
             ++ map InitCall (all_links (cases opts)))%list
  /\ (cache s1, world s1) = materialize runtime1 (cases opts) (world s)
  /\ (cache s2, world s2) = materialize runtime2 (cases opts) (world s1).
Proof.
  intros Hwf Hlink s1 s2.
  unfold switchLink in Hlink. cbn zeta in Hlink.
  destruct (Nat.eqb (List.length (JSObject.keys (cases opts))) 0);
    [discriminate |].
  injection Hlink as <-.
  subst s2 s1. unfold bind.
  rewrite initialize_run by exact Hwf. unfold ret. cbn [fst snd].
  rewrite initialize_run by exact Hwf. cbn [fst snd world cache calls objects].
  split; [now rewrite <- app_assoc |].
  split.
  - now destruct (materialize runtime1 (cases opts) (world s)).
  - now destruct (materialize runtime2 (cases opts)
                    (snd (materialize runtime1 (cases opts) (world s)))).
Qed.

(** A case that is the empty array is a case like any other (line 81
    tests the [Map] entry, and an empty array is truthy).  Construction
    accepts it, and an operation the selector sends to it is a hit: the
    chain is executed on the empty list, and no unknown-key error is
    sent. *)
Theorem switch_empty_case_is_a_hit
    (opts : SwitchLinkOptions) (runtime : Runtime) (history : list Op)
    (s0 : State) (op : Op) (key : string) (w1 : World) :
  JSObject.wf (cases opts) ->
  JSObject.get (cases opts) key = Some (Many []) ->
  let s := serving opts runtime history s0 in
  selected opts op (world s) = (key, w1) ->
  (exists link, switchLink opts = Return link)
  /\ JSMap.get (cache s) key = Some []
  /\ handle opts op s =
     (fst (createChain op [] w1),
      {| world := snd (createChain op [] w1);
         cache := cache s;
         calls := (calls s ++ [ChainCall op []])%list;
         objects := objects s |}).
Proof.
  intros Hwf Hget s Hsel.
  assert (Hne : cases opts <> [])
    by (intros E; rewrite E in Hget; discriminate).
  assert (Hcache : cache s = fst (materialize runtime (cases opts) (world s0)))
    by now apply serving_cache.
  assert (Hhit : JSMap.get (cache s) key = Some []).
  { rewrite Hcache.
    destruct (materialize_get runtime (cases opts) (world s0) key (Many []) Hget)
      as [w' Hw']. exact Hw'. }
  split.
  - unfold switchLink. cbn zeta.
    destruct (cases opts); [congruence |]. cbn. eauto.
  - split; [exact Hhit |].
    exact (switch_handle_hit opts op s key w1 [] Hsel Hhit).
Qed.

End SwitchCoverage.

(** * The added properties at concrete inputs *)

Section ConcreteMore.
#[local] Existing Instance Demo.trpc.
Import Demo DemoMore.

(** [endpoint_call_sequence] on "users" then "billing", both mapped to
    "/api/shared". *)
Lemma endpoint_call_sequence_witness :
  let op := createMockOp "users.one" false in
  let op' := createMockOp "billing.sub" false in
  let s1 := snd (EndpointRouterLink.handle shared tt op (fresh 0)) in
  let s2 := snd (EndpointRouterLink.handle shared tt op' s1) in
  EndpointRouterLink.endpoint_of shared op = Some (Url "/api/shared")
  /\ EndpointRouterLink.endpoint_of shared op' = Some (Url "/api/shared")
  /\ EndpointRouterLink.not_endpoint (Some (Url "/api/shared")) = false
  /\ calls s2 = (calls s1 ++ [ChainCall op' [("link to /api/shared", 1)]])%list.
Proof.
  intros op op' s1 s2.
  split; [reflexivity |]. split; [reflexivity |]. split; [reflexivity |].
  pose proof (endpoint_call_sequence (H := trpc) shared tt op op' (fresh 0)
                (Url "/api/shared") eq_refl eq_refl eq_refl)
    as (links & Hget & _ & _ & _ & Hcalls).
  injection Hget as <-. exact Hcalls.
Defined.

(** [mapping_entry_wins_over_default] on the empty string under "users"
    with the default "/api/default". *)
Lemma mapping_entry_wins_over_default_witness :
  let op := createMockOp "users.get" false in
  JSObject.get (EndpointRouterLink.routerToEndpoint blank_with_default)
               (EndpointRouterLink.routerName op) = Some EmptyString
  /\ EndpointRouterLink.endpoint_of blank_with_default op
     = Some (Url EmptyString)
  /\ fst (EndpointRouterLink.handle blank_with_default tt op (fresh 0)) =
     [Error (TRPCClientError_from
               (mkError ("endpointRouterLink: no endpoint for router "
                         ++ Str.quoted "users"
                         ++ ". Either add it to routerToEndpoint or provide a defaultEndpoint.")))].
Proof.
  intros op.
  pose proof (mapping_entry_wins_over_default (H := trpc) blank_with_default
                (Some "/api/default") tt op (fresh 0) EmptyString eq_refl)
    as [Hend Herr].
  split; [reflexivity |]. split; [exact Hend |].
  exact (f_equal fst (Herr eq_refl)).
Defined.

(** [router_name_of_a_procedure] on a nested path of "users", and on a
    path whose first segment names a member of [Object.prototype]. *)
Lemma router_name_of_a_procedure_witness :
  let op := createMockOp "users.profile.settings.get" false in
  let op' := createMockOp "valueOf.call" false in
  Str.has_char "." "users" = false
  /\ op_path op = "users" ++ "." ++ "profile.settings.get"
  /\ EndpointRouterLink.routerName op = "users"
  /\ EndpointRouterLink.endpoint_of (users_only None None) op
     = Some (Url "/api/users")
  /\ EndpointRouterLink.endpoint_of (users_only None (Some "/api/default")) op'
     = Some (Inherited "valueOf").
Proof.
  intros op op'.
  split; [reflexivity |]. split; [reflexivity |].
  pose proof (router_name_of_a_procedure (H := trpc) (users_only None None) op
                "users" eq_refl
                (or_intror (ex_intro _ "profile.settings.get" eq_refl)))
    as [Hname Hend].
  pose proof (router_name_of_a_procedure (H := trpc)
                (users_only None (Some "/api/default")) op'
                "valueOf" eq_refl (or_intror (ex_intro _ "call" eq_refl)))
    as [_ Hend'].
  split; [exact Hname |]. split; [exact Hend | exact Hend'].
Defined.

(** [linkOptions_reach_the_default_transport_only] on link options that
    hold a [url]: the transport is made for that url, not for the endpoint
    the operation resolved to. *)
Lemma linkOptions_reach_the_default_transport_only_witness :
  let op := createMockOp "users.getAll" false in
  let s' := snd (EndpointRouterLink.handle url_in_options tt op (fresh 0)) in
  EndpointRouterLink.endpoint_of url_in_options op = Some (Url "/api/users")
  /\ JSObject.spread [("url", "/api/users")]
       (EndpointRouterLink.linkOptions_or_empty url_in_options)
     = [("url", "/api/elsewhere"); ("headers", "X-Custom")]
  /\ calls s' =
     [FactoryCall (Url "/api/users"); InitCall "httpBatchLink /api/elsewhere";
      ChainCall op [("httpBatchLink /api/elsewhere", 0)]].
Proof.
  intros op s'.
  assert (Hwf : JSObject.wf (EndpointRouterLink.linkOptions_or_empty url_in_options))
    by solve_wf.
  split; [reflexivity |]. split; [reflexivity |].
  exact (proj1 (linkOptions_reach_the_default_transport_only (H := trpc)
                  url_in_options None None tt op (fresh 0)
                  (Url "/api/users") eq_refl eq_refl eq_refl Hwf)).
Defined.

(** [switch_initialization_is_per_instance] on the three links of
    [by_role]. *)
Lemma switch_initialization_is_per_instance_witness :
  let link := fun runtime =>
    SwitchLink.initialize by_role (JSObject.keys (SwitchLink.cases by_role)) runtime ;;
    ret (SwitchLink.handle by_role) in
  let s2 := snd (link tt (snd (link tt (fresh 0)))) in
  JSObject.wf (SwitchLink.cases by_role)
  /\ SwitchLink.switchLink by_role = Return link
  /\ calls s2 =
     [InitCall "adminLink"; InitCall "loggerLink"; InitCall "userLink";
      InitCall "adminLink"; InitCall "loggerLink"; InitCall "userLink"].
Proof.
  intros link s2.
  assert (Hwf : JSObject.wf (SwitchLink.cases by_role)) by solve_wf.
  split; [exact Hwf |]. split; [reflexivity |].
  exact (proj1 (switch_initialization_is_per_instance (H := trpc) by_role link
                  tt tt (fresh 0) Hwf eq_refl)).
Defined.

(** [switch_empty_case_is_a_hit] on the case "none". *)
Lemma switch_empty_case_is_a_hit_witness :
  let op := createMockOp "any.thing" true in
  let s := SwitchSpec.serving with_empty_case tt [] (fresh 0) in
  JSObject.wf (SwitchLink.cases with_empty_case)
  /\ JSObject.get (SwitchLink.cases with_empty_case) "none" = Some (Many [])
  /\ SwitchSpec.selected with_empty_case op (world s) = ("none", 2)
  /\ fst (SwitchLink.handle with_empty_case op s) = [Next EmptyString; Complete].
Proof.
  intros op s.
  assert (Hwf : JSObject.wf (SwitchLink.cases with_empty_case)) by solve_wf.
  split; [exact Hwf |]. split; [reflexivity |]. split; [reflexivity |].
  pose proof (switch_empty_case_is_a_hit (H := trpc) with_empty_case tt []
                (fresh 0) op "none" 2 Hwf eq_refl eq_refl) as (_ & _ & Hrun).
  exact (f_equal fst Hrun).
Defined.

(** The router names of the mock router of the tests, and the default
    transport at work. *)
Example RouterNames_of_the_mock_router :
  Types.RouterNames MockProcedures = ["users"; "users"; "billing"; "billing"; "admin"]
  /\ calls (EndpointSpec.serving default_transport tt
              [createMockOp "users.getAll" false; createMockOp "other.x" false]
              (fresh 0)) =
     [FactoryCall (Url "/api/users"); InitCall "httpBatchLink /api/users";
      ChainCall (createMockOp "users.getAll" false) [("httpBatchLink /api/users", 0)];
      FactoryCall (Url "/api/trpc"); InitCall "httpBatchLink /api/trpc";
      ChainCall (createMockOp "other.x" false) [("httpBatchLink /api/trpc", 2)]].
Proof. split; reflexivity. Qed.

End ConcreteMore.
